(** * Audit-log payload decoder (discord/audit_logs.py)

    A shallow embedding of the decoder: the per-field transform table, the
    change-diff builder [AuditLogChanges.__init__], the entry decoder
    [AuditLogEntry._from_data] and the memoised accessors of an entry.

    Python values are a tagged union [value]; exceptions are the [Raise]
    branch of [result]; the attribute bag of an [AuditLogDiff] (its
    [__dict__]) is a [gmap string value]; objects whose identity matters
    (the two diffs and the [AuditLogChanges] holder) live in an explicit
    heap and are named by their address. *)

From Stdlib Require Import ZArith String Ascii List Permutation.
From stdpp Require Import base gmap strings list fin_maps sorting.

Local Open Scope string_scope.
Local Open Scope Z_scope.

(** ** Exceptions and fallible computations *)

Inductive exn := KeyError | ValueError | TypeError | AttributeError.

Inductive result (A : Type) :=
| OK (a : A)
| Raise (e : exn).
Arguments OK {A} a.
Arguments Raise {A} e.

#[global] Instance result_ret : MRet result := @OK.
#[global] Instance result_bind : MBind result := fun A B f m =>
  match m with
  | OK a => f a
  | Raise e => Raise e
  end.

#[global] Instance result_fmap : FMap result := fun A B f m =>
  match m with
  | OK a => OK (f a)
  | Raise e => Raise e
  end.

Definition returns {A} (m : result A) : Prop := exists a, m = OK a.

(** [[f x for x in l]] with a fallible [f], evaluated left to right. *)
Fixpoint list_comp {A B} (f : A -> result B) (l : list A) : result (list B) :=
  match l with
  | [] => OK []
  | x :: l' => y ← f x; ys ← list_comp f l'; OK (y :: ys)
  end.

(** ** Domain objects and Python values *)

(** The enum classes the transform table mentions. *)
Inductive enum_class :=
| VerificationLevel | ContentFilter | NotificationLevel | VoiceRegion
| VideoQualityMode | StagePrivacyLevel | StickerFormatType | StickerType
| ChannelType | ScheduledEventStatus | ScheduledEventLocationType
| AutoModTriggerType | AutoModEventType.

Inductive entity_kind :=
| KGuild | KChannel | KRole | KMember | KUser | KEmoji | KSticker
| KStageInstance | KThread | KScheduledEvent.

(** A live domain object held by one of the caches.  The decoder never looks
    inside one; every such object is truthy (none of these classes defines
    [__bool__] or [__len__]). *)
Record entity := Entity { ent_kind : entity_kind; ent_id : Z }.

#[local] Set Warnings "-register-all".
Inductive value :=
| VNone
| VBool (b : bool)
| VInt (z : Z)
| VStr (s : string)
| VList (l : list value)
| VDict (d : list (string * value))
| VTuple (a b : value)
| VEntity (e : entity)
(* [Object(id=...)], the opaque reference; [name] is the attribute the
   decoder attaches afterwards, when it does *)
| VObject (id : Z) (name : option value)
| VPermissions (bits : Z)
| VColour (raw : value)
| VOverwrite (allow deny : Z)
| VAsset (builder : string) (owner : value) (hash : value)
| VEnum (c : enum_class) (member : string)
| VEnumUnknown (c : enum_class) (raw : value)
| VAutoModAction (payload : value)
| VTriggerMetadata (payload : value)
| VLocation (v : value)
(* [Invite(state, data, guild, channel)]; [inviter] is the attribute the
   target converter assigns afterwards, when it does *)
| VInvite (data : list (string * value)) (channel : value)
          (inviter : option value)
(* an instance of a class made by [type("_AuditLogProxy", (), elems)] *)
| VProxy (elems : list (string * value)).

(** ** Python primitives *)

Fixpoint assoc {A} (k : string) (d : list (string * A)) : option A :=
  match d with
  | [] => None
  | (k', v) :: d' => if String.eqb k k' then Some v else assoc k d'
  end.

(** [v[k]] for a string subscript. *)
Definition getitem (v : value) (k : string) : result value :=
  match v with
  | VDict d => match assoc k d with
               | Some x => OK x
               | None => Raise KeyError
               end
  | _ => Raise TypeError
  end.

(** [d.get(k)] on a mapping. *)
Definition dict_get (d : list (string * value)) (k : string) : value :=
  match assoc k d with
  | Some x => x
  | None => VNone
  end.

(** [for x in v]. *)
Fixpoint chars (s : string) : list value :=
  match s with
  | EmptyString => []
  | String c s' => VStr (String c EmptyString) :: chars s'
  end.

Definition iterate (v : value) : result (list value) :=
  match v with
  | VList l => OK l
  | VDict d => OK (map (fun kv => VStr (fst kv)) d)
  | VStr s => OK (chars s)
  | VTuple a b => OK [a; b]
  | _ => Raise TypeError
  end.

(** Truth value of the raw (JSON-shaped) values and of the objects the
    decoder builds. *)
Definition truthy (v : value) : bool :=
  match v with
  | VNone => false
  | VBool b => b
  | VInt z => negb (z =? 0)
  | VStr s => negb (String.eqb s "")
  | VList l => match l with [] => false | _ => true end
  | VDict d => match d with [] => false | _ => true end
  | _ => true
  end.

(** [int(s)] for a string in base ten: surrounding ASCII white space, an
    optional sign, digits with single underscores between them.  (Digits
    and white space outside ASCII are not modelled.) *)
Definition digit (c : ascii) : option Z :=
  let n := Z.of_N (N_of_ascii c) in
  if (48 <=? n) && (n <=? 57) then Some (n - 48) else None.

Fixpoint digits (acc : Z) (after_digit : bool) (s : string) : option Z :=
  match s with
  | EmptyString => if after_digit then Some acc else None
  | String c s' =>
      match digit c with
      | Some d => digits (10 * acc + d) true s'
      | None =>
          if Ascii.eqb c "_" && after_digit then digits acc false s' else None
      end
  end.

Fixpoint lstrip (s : string) : string :=
  match s with
  | EmptyString => EmptyString
  | String c s' => if Ascii.is_space c then lstrip s' else s
  end.

Definition strip (s : string) : string :=
  String.rev (lstrip (String.rev (lstrip s))).

Definition int_of_str (s : string) : option Z :=
  match strip s with
  | String "+" r => digits 0 false r
  | String "-" r => Z.opp <$> digits 0 false r
  | r => digits 0 false r
  end.

(** [int(v)] *)
Definition int (v : value) : result Z :=
  match v with
  | VInt z => OK z
  | VBool b => OK (if b then 1 else 0)
  | VStr s => match int_of_str s with
              | Some z => OK z
              | None => Raise ValueError
              end
  | _ => Raise TypeError
  end.

(** [v == n] for an integer literal [n]. *)
Definition eq_int (v : value) (n : Z) : bool :=
  match v with
  | VInt z => z =? n
  | VBool b => (if b then 1 else 0) =? n
  | _ => false
  end.

(** [v == s] for a string literal [s]. *)
Definition eq_str (v : value) (s : string) : bool :=
  match v with
  | VStr s' => String.eqb s' s
  | _ => false
  end.

Definition startswith (s p : string) : bool := String.prefix p s.

Definition endswith (s p : string) : bool :=
  String.prefix (String.rev p) (String.rev s).

(** [s.split("_", 1)[-1]] *)
Fixpoint after_first_underscore (s : string) : string :=
  match s with
  | EmptyString => EmptyString
  | String c s' => if Ascii.eqb c "_" then s' else after_first_underscore s'
  end.

Definition split_last (s : string) : string :=
  if existsb (fun c => Ascii.eqb c "_") (list_ascii_of_string s)
  then after_first_underscore s else s.

(** ** Collaborators

    The caches of the guild and of the connection state are consulted only
    through their lookup methods; a miss is [None]. *)

Record ConnectionState := {
  _get_guild : value -> option entity;
  get_emoji : Z -> option entity;
  get_sticker : Z -> option entity;
}.

Record Guild := {
  guild_id : Z;
  guild_state : ConnectionState;
  get_channel : Z -> option entity;
  get_role : Z -> option entity;
  get_member : Z -> option entity;
  get_stage_instance : Z -> option entity;
  get_thread : Z -> option entity;
  get_scheduled_event : Z -> option entity;
}.

(** A lookup method called with whatever the entry holds as an id: only an
    integer can hit. *)
Definition lookup (f : Z -> option entity) (id : value) : option entity :=
  match id with
  | VInt z => f z
  | _ => None
  end.

(** [found or fallback] *)
Definition or_else (found : option entity) (fallback : result value)
  : result value :=
  match found with
  | Some e => OK (VEntity e)
  | None => fallback
  end.

(** Modelled from the spec: [Object] (discord/object.py) is not part of the
    source at hand; it is the opaque reference object carrying only the
    numeric id, which its constructor obtains with [int]. *)
Definition Object (id : value) : result value :=
  z ← int id; OK (VObject z None).

(** A member of [enums.AuditLogAction], or the stand-in [try_enum] makes
    for an unknown ordinal ([is_enum_member = false]; such a stand-in has
    no [target_type] attribute). *)
Record AuditLogAction := {
  is_enum_member : bool;
  name : string;
  target_type : option string;
}.

Definition action_is (a : AuditLogAction) (member : string) : bool :=
  is_enum_member a && String.eqb (name a) member.

(** ** Raw payloads *)

Record AuditLogChangePayload := {
  key : string;
  old_value : option value;
  new_value : option value;
}.

Record AuditLogEntryPayload := {
  p_action_type : value;
  p_id : value;
  p_reason : option value;
  p_options : option value;
  p_changes : option (list AuditLogChangePayload);
  p_user_id : option value;
  p_target_id : option value;
}.

(** ** Heap objects

    An [AuditLogDiff] is its attribute dictionary; an [AuditLogChanges]
    holds the addresses of its two diffs. *)

Abbreviation AuditLogDiff := (gmap string value).

Inductive object :=
| ODiff (attrs : AuditLogDiff)
| OChanges (before after : nat).

(** ** The entry *)

Record AuditLogEntry := {
  _state : ConnectionState;
  guild : Guild;
  _users : gmap Z entity;
  action : AuditLogAction;
  id : Z;
  reason : value;
  extra : value;
  user : value;
  _target_id : value;
  (* [None] once [del self._changes] has run *)
  _changes : option (list AuditLogChangePayload);
  (* the instance slots the cached properties fill on first access *)
  changes_slot : option nat;
  before_slot : option nat;
  after_slot : option nat;
  target_slot : option value;
}.

Definition get_member_of (g : Guild) (users : gmap Z entity) (user_id : value)
  : value :=
  match lookup (get_member g) user_id with
  | Some m => VEntity m
  | None =>
      match user_id with
      | VInt z => match users !! z with
                  | Some u => VEntity u
                  | None => VNone
                  end
      | _ => VNone
      end
  end.

Definition _get_member (entry : AuditLogEntry) (user_id : value) : value :=
  get_member_of (guild entry) (_users entry) user_id.

(** [enums.py] is not part of the source at hand: the value tables of the
    enum classes are an interface.  [enum_value_map c v] is the name of the
    member of [c] whose value is [v]; [audit_log_action v] is
    [try_enum(AuditLogAction, v)]. *)
Class Enums := {
  enum_value_map : enum_class -> value -> option string;
  audit_log_action : value -> AuditLogAction;
}.

Section Decoder.
Context `{Enums}.

Definition try_enum (c : enum_class) (v : value) : value :=
  match enum_value_map c v with
  | Some member => VEnum c member
  | None => VEnumUnknown c v
  end.

(** ** Transform functions *)

Definition Transformer := AuditLogEntry -> value -> result value.

Definition _transform_permissions : Transformer := fun entry data =>
  z ← int data; OK (VPermissions z).

Definition _transform_color : Transformer := fun entry data =>
  OK (VColour data).

Definition _transform_snowflake : Transformer := fun entry data =>
  z ← int data; OK (VInt z).

Definition _transform_channel : Transformer := fun entry data =>
  match data with
  | VNone => OK VNone
  | _ => z ← int data; or_else (get_channel (guild entry) z) (Object data)
  end.

Definition _transform_channels : Transformer := fun entry data =>
  match data with
  | VNone => OK VNone
  | _ => l ← iterate data;
         r ← list_comp (_transform_channel entry) l;
         OK (VList r)
  end.

Definition _transform_roles : Transformer := fun entry data =>
  match data with
  | VNone => OK VNone
  | _ => l ← iterate data;
         r ← list_comp
               (fun r => z ← int r; or_else (get_role (guild entry) z) (Object r))
               l;
         OK (VList r)
  end.

Definition _transform_member_id : Transformer := fun entry data =>
  match data with
  | VNone => OK VNone
  | _ => z ← int data; OK (_get_member entry (VInt z))
  end.

Definition _transform_guild_id : Transformer := fun entry data =>
  match data with
  | VNone => OK VNone
  | _ => OK (match _get_guild (_state entry) data with
             | Some g => VEntity g
             | None => VNone
             end)
  end.

Definition overwrite_of (entry : AuditLogEntry) (elem : value) : result value :=
  a ← getitem elem "allow"; allow ← int a;
  d ← getitem elem "deny"; deny ← int d;
  ow_type ← getitem elem "type";
  i ← getitem elem "id"; ow_id ← int i;
  let target :=
    if eq_int ow_type 0 then
      match get_role (guild entry) ow_id with
      | Some r => VEntity r
      | None => VNone
      end
    else if eq_int ow_type 1 then _get_member entry (VInt ow_id)
    else VNone in
  let target := match target with
                | VNone => VObject ow_id None
                | t => t
                end in
  OK (VTuple target (VOverwrite allow deny)).

Definition _transform_overwrites : Transformer := fun entry data =>
  l ← iterate data; r ← list_comp (overwrite_of entry) l; OK (VList r).

Definition _transform_icon : Transformer := fun entry data =>
  match data with
  | VNone => OK VNone
  | _ => OK (VAsset "_from_guild_icon" (VInt (guild_id (guild entry))) data)
  end.

Definition _transform_avatar : Transformer := fun entry data =>
  match data with
  | VNone => OK VNone
  | _ => OK (VAsset "_from_avatar" (_target_id entry) data)
  end.

Definition _transform_scheduled_event_image : Transformer := fun entry data =>
  match data with
  | VNone => OK VNone
  | _ => OK (VAsset "_from_scheduled_event_image" (_target_id entry) data)
  end.

Definition _guild_hash_transformer (path : string) : Transformer :=
  fun entry data =>
  match data with
  | VNone => OK VNone
  | _ => OK (VAsset ("_from_guild_image:" +:+ path)
                    (VInt (guild_id (guild entry))) data)
  end.

Definition _enum_transformer (enum : enum_class) : Transformer :=
  fun entry data => OK (try_enum enum data).

Definition _transform_type : Transformer := fun entry data =>
  if startswith (name (action entry)) "sticker_"
  then OK (try_enum StickerType data)
  else OK (try_enum ChannelType data).

Definition _transform_actions : Transformer := fun entry data =>
  match data with
  | VNone => OK VNone
  | _ => l ← iterate data; OK (VList (map VAutoModAction l))
  end.

Definition _transform_trigger_metadata : Transformer := fun entry data =>
  match data with
  | VNone => OK VNone
  | _ => OK (VTriggerMetadata data)
  end.

(** ** The transform table *)

Definition TRANSFORMERS : list (string * (option string * option Transformer)) :=
  [ ("verification_level", (None, Some (_enum_transformer VerificationLevel)));
    ("explicit_content_filter", (None, Some (_enum_transformer ContentFilter)));
    ("allow", (None, Some _transform_permissions));
    ("deny", (None, Some _transform_permissions));
    ("permissions", (None, Some _transform_permissions));
    ("id", (None, Some _transform_snowflake));
    ("color", (Some "colour", Some _transform_color));
    ("owner_id", (Some "owner", Some _transform_member_id));
    ("inviter_id", (Some "inviter", Some _transform_member_id));
    ("channel_id", (Some "channel", Some _transform_channel));
    ("afk_channel_id", (Some "afk_channel", Some _transform_channel));
    ("system_channel_id", (Some "system_channel", Some _transform_channel));
    ("widget_channel_id", (Some "widget_channel", Some _transform_channel));
    ("rules_channel_id", (Some "rules_channel", Some _transform_channel));
    ("public_updates_channel_id",
      (Some "public_updates_channel", Some _transform_channel));
    ("permission_overwrites", (Some "overwrites", Some _transform_overwrites));
    ("splash_hash", (Some "splash", Some (_guild_hash_transformer "splashes")));
    ("banner_hash", (Some "banner", Some (_guild_hash_transformer "banners")));
    ("discovery_splash_hash",
      (Some "discovery_splash",
       Some (_guild_hash_transformer "discovery-splashes")));
    ("icon_hash", (Some "icon", Some _transform_icon));
    ("avatar_hash", (Some "avatar", Some _transform_avatar));
    ("rate_limit_per_user", (Some "slowmode_delay", None));
    ("guild_id", (Some "guild", Some _transform_guild_id));
    ("tags", (Some "emoji", None));
    ("default_message_notifications",
      (Some "default_notifications",
       Some (_enum_transformer NotificationLevel)));
    ("rtc_region", (None, Some (_enum_transformer VoiceRegion)));
    ("video_quality_mode", (None, Some (_enum_transformer VideoQualityMode)));
    ("privacy_level", (None, Some (_enum_transformer StagePrivacyLevel)));
    ("format_type", (None, Some (_enum_transformer StickerFormatType)));
    ("type", (None, Some _transform_type));
    ("status", (None, Some (_enum_transformer ScheduledEventStatus)));
    ("entity_type",
      (Some "location_type",
       Some (_enum_transformer ScheduledEventLocationType)));
    ("command_id", (Some "command_id", Some _transform_snowflake));
    ("image_hash", (Some "image", Some _transform_scheduled_event_image));
    ("trigger_type", (None, Some (_enum_transformer AutoModTriggerType)));
    ("event_type", (None, Some (_enum_transformer AutoModEventType)));
    ("actions", (None, Some _transform_actions));
    ("trigger_metadata", (None, Some _transform_trigger_metadata));
    ("exempt_roles", (None, Some _transform_roles));
    ("exempt_channels", (None, Some _transform_channels)) ].

(** ** The change-diff builder *)

(** [sorted(data, key=lambda i: i["key"])]: a stable sort on the key, strings
    compared code point by code point. *)
Fixpoint insert_by_key (x : AuditLogChangePayload)
  (l : list AuditLogChangePayload) : list AuditLogChangePayload :=
  match l with
  | [] => [x]
  | y :: l' =>
      if String.leb (key x) (key y) then x :: l else y :: insert_by_key x l'
  end.

Definition sorted (data : list AuditLogChangePayload)
  : list AuditLogChangePayload :=
  foldr insert_by_key [] data.

(** [elem["new_value"]] *)
Definition require (field : option value) : result value :=
  match field with
  | Some v => OK v
  | None => Raise KeyError
  end.

Definition role_of (entry : AuditLogEntry) (e : value) : result value :=
  i ← getitem e "id"; role_id ← int i;
  match get_role (guild entry) role_id with
  | Some role => OK (VEntity role)
  | None => n ← getitem e "name"; OK (VObject role_id (Some n))
  end.

(** Returns the two bags it was handed, in the order it was handed them. *)
Definition _handle_role (first second : AuditLogDiff) (entry : AuditLogEntry)
  (elem : value) : result (AuditLogDiff * AuditLogDiff) :=
  let first := match first !! "roles" with
               | Some _ => first
               | None => <["roles" := VList []]> first
               end in
  l ← iterate elem;
  data ← list_comp (role_of entry) l;
  OK (first, <["roles" := VList data]> second).

Definition _handle_trigger_metadata (first second : AuditLogDiff)
  (entry : AuditLogEntry) (elem : value) (attr : string)
  : result (AuditLogDiff * AuditLogDiff) :=
  let first := match first !! "trigger_metadata" with
               | Some _ => first
               | None => <["trigger_metadata" := VNone]> first
               end in
  let tm := VTriggerMetadata (VDict [(split_last attr, elem)]) in
  OK (first, <["trigger_metadata" := tm]> second).

Definition add_metadata_keys : list string :=
  ["$add_keyword_filter"; "$add_regex_patterns"; "$add_allow_list"].

Definition remove_metadata_keys : list string :=
  ["$remove_keyword_filter"; "$remove_regex_patterns"; "$remove_allow_list"].

Definition mem (s : string) (l : list string) : bool :=
  existsb (String.eqb s) l.

(** The records the loop hands to a composite handler. *)
Definition composite (k : string) : bool :=
  String.eqb k "$add" || String.eqb k "$remove"
  || mem k add_metadata_keys || mem k remove_metadata_keys.

(** [key, transformer = self.TRANSFORMERS[attr]], with the renaming. *)
Definition resolve (attr : string) : string * option Transformer :=
  match assoc attr TRANSFORMERS with
  | Some (Some k, transformer) =>
      (if String.eqb k "" then attr else k, transformer)
  | Some (None, transformer) => (attr, transformer)
  | None => (attr, None)
  end.

Definition resolved_name (k : string) : string := fst (resolve k).
Definition transformer_of (k : string) : option Transformer := snd (resolve k).

(** One side of a record: the raw value if the record has it, transformed
    if the key has a transformer. *)
Definition side (transformer : option Transformer) (entry : AuditLogEntry)
  (raw : option value) : result value :=
  match raw with
  | None => OK VNone
  | Some v => match transformer with
              | Some t => t entry v
              | None => OK v
              end
  end.

Definition is_external (v : value) : bool :=
  match v with
  | VEnum ScheduledEventLocationType member => String.eqb member "external"
  | _ => false
  end.

(** The [location] special case, on the bag about to receive the value. *)
Definition locate (attr : string) (bag : AuditLogDiff) (v : value) : value :=
  if String.eqb attr "location" then
    match bag !! "location_type" with
    | Some location_type =>
        if is_external location_type then VLocation v
        else match bag !! "channel" with
             | Some channel => VLocation channel
             | None => v
             end
    | None => v
    end
  else v.

(** The names [setattr] does not store in the attribute dictionary of an
    [AuditLogDiff]. *)
Definition reserved (attr : string) : bool :=
  mem attr ["__dict__"; "__class__"; "__weakref__"].

(** [setattr(bag, attr, v)] for a name that is not a literal of the source.
    [AuditLogDiff] is a plain class (no [__slots__]; its [__setattr__] exists
    for the type checker only), so an instance has the three data
    descriptors of every such object and the assignment goes to them first:
    [__dict__] replaces the whole attribute dictionary and accepts only a
    dictionary, [__class__] accepts only a class, which no payload value is,
    and [__weakref__] cannot be written.  Every other name is a key of the
    attribute dictionary.  (The dictionary that replaces the bag is the
    payload's own; the payload is not read again after it, and the old and
    the new value of a decoded payload are two objects.) *)
Definition setattr (bag : AuditLogDiff) (attr : string) (v : value)
  : result AuditLogDiff :=
  if String.eqb attr "__dict__" then
    match v with
    | VDict d => OK (list_to_map d)
    | _ => Raise TypeError
    end
  else if String.eqb attr "__class__" then Raise TypeError
  else if String.eqb attr "__weakref__" then Raise AttributeError
  else OK (<[attr := v]> bag).

(** The generic path of the loop body. *)
Definition generic (entry : AuditLogEntry) (before after : AuditLogDiff)
  (elem : AuditLogChangePayload) : result (AuditLogDiff * AuditLogDiff) :=
  let '(attr, transformer) := resolve (key elem) in
  b ← side transformer entry (old_value elem);
  before ← setattr before attr (locate attr before b);
  a ← side transformer entry (new_value elem);
  after ← setattr after attr (locate attr after a);
  OK (before, after).

Definition swap {A} (p : A * A) : A * A := (snd p, fst p).

(** The loop body: the pair is (before, after). *)
Definition step (entry : AuditLogEntry) (s : AuditLogDiff * AuditLogDiff)
  (elem : AuditLogChangePayload) : result (AuditLogDiff * AuditLogDiff) :=
  let '(before, after) := s in
  let attr := key elem in
  if String.eqb attr "$add" then
    v ← require (new_value elem); _handle_role before after entry v
  else if String.eqb attr "$remove" then
    v ← require (new_value elem);
    swap <$> _handle_role after before entry v
  else if mem attr add_metadata_keys then
    v ← require (new_value elem);
    _handle_trigger_metadata before after entry v attr
  else if mem attr remove_metadata_keys then
    v ← require (new_value elem);
    swap <$> _handle_trigger_metadata after before entry v attr
  else generic entry before after elem.

Fixpoint loop (entry : AuditLogEntry) (s : AuditLogDiff * AuditLogDiff)
  (l : list AuditLogChangePayload) : result (AuditLogDiff * AuditLogDiff) :=
  match l with
  | [] => OK s
  | elem :: l' => s' ← step entry s elem; loop entry s' l'
  end.

(** [if hasattr(self.after, a): self.after.b = self.after.a;
     self.before.b = self.before.a] *)
Definition alias (a b : string) (s : AuditLogDiff * AuditLogDiff)
  : result (AuditLogDiff * AuditLogDiff) :=
  let '(before, after) := s in
  match after !! a with
  | None => OK s
  | Some va =>
      match before !! a with
      | Some vb => OK (<[b := vb]> before, <[b := va]> after)
      | None => Raise AttributeError
      end
  end.

(** [AuditLogChanges.__init__]: the attribute bags of [self.before] and
    [self.after] when the constructor returns. *)
Definition AuditLogChanges_init (entry : AuditLogEntry)
  (data : list AuditLogChangePayload) : result (AuditLogDiff * AuditLogDiff) :=
  s ← loop entry (∅, ∅) (sorted data);
  s ← alias "colour" "color" s;
  alias "expire_behavior" "expire_behaviour" s.

(** ** The entry decoder *)

(** Modelled from the spec: [utils._get_as_snowflake] is not part of the
    source at hand; an optional string-encoded integer, absent or null
    staying null. *)
Definition _get_as_snowflake (field : option value) : result value :=
  match field with
  | None => OK VNone
  | Some v => if truthy v then z ← int v; OK (VInt z) else OK v
  end.

(** [self.guild.get_channel(channel_id) or Object(id=channel_id)] *)
Definition channel_or_object (g : Guild) (channel_id : Z) : value :=
  match get_channel g channel_id with
  | Some c => VEntity c
  | None => VObject channel_id None
  end.

(** [mapping.get(k)]; anything but a mapping has no [get]. *)
Definition get (v : value) (k : string) : result value :=
  match v with
  | VDict d => OK (dict_get d k)
  | _ => Raise AttributeError
  end.

(** [{k: int(v) for k, v in self.extra.items()}] *)
Definition int_items (v : value) : result (list (string * value)) :=
  match v with
  | VDict d => list_comp (fun kv => z ← int (snd kv); OK (fst kv, VInt z)) d
  | _ => Raise AttributeError
  end.

(** The action-specific replacement of [self.extra]; [raw] is truthy and the
    action is an enum member. *)
Definition extra_of (g : Guild) (users : gmap Z entity) (a : AuditLogAction)
  (raw : value) : result value :=
  if action_is a "member_prune" then
    elems ← int_items raw; OK (VProxy elems)
  else if action_is a "member_move" || action_is a "message_delete" then
    c ← getitem raw "channel_id"; channel_id ← int c;
    n ← getitem raw "count"; count ← int n;
    OK (VProxy [("count", VInt count);
                ("channel", channel_or_object g channel_id)])
  else if action_is a "member_disconnect" then
    n ← getitem raw "count"; count ← int n;
    OK (VProxy [("count", VInt count)])
  else if endswith (name a) "pin" then
    c ← getitem raw "channel_id"; channel_id ← int c;
    m ← getitem raw "message_id"; message_id ← int m;
    OK (VProxy [("channel", channel_or_object g channel_id);
                ("message_id", VInt message_id)])
  else if startswith (name a) "overwrite_" then
    i ← getitem raw "id"; instance_id ← int i;
    the_type ← get raw "type";
    if eq_str the_type "1" then
      OK (get_member_of g users (VInt instance_id))
    else if eq_str the_type "0" then
      match get_role g instance_id with
      | Some role => OK (VEntity role)
      | None => n ← get raw "role_name"; OK (VObject instance_id (Some n))
      end
    else OK raw
  else if startswith (name a) "stage_instance" then
    c ← getitem raw "channel_id"; channel_id ← int c;
    OK (VProxy [("channel", channel_or_object g channel_id)])
  else OK raw.

Definition from_option_value (o : option value) : value :=
  match o with
  | Some v => v
  | None => VNone
  end.

(** [AuditLogEntry.__init__], which is [_from_data] on the three fields the
    constructor stores. *)
Definition _from_data (users : gmap Z entity) (data : AuditLogEntryPayload)
  (g : Guild) : result AuditLogEntry :=
  let a := audit_log_action (p_action_type data) in
  i ← int (p_id data);
  let raw := from_option_value (p_options data) in
  x ← (if is_enum_member a && truthy raw then extra_of g users a raw
       else OK raw);
  user_id ← _get_as_snowflake (p_user_id data);
  target_id ← _get_as_snowflake (p_target_id data);
  OK {| _state := guild_state g; guild := g; _users := users;
        action := a; id := i;
        reason := from_option_value (p_reason data);
        extra := x;
        user := get_member_of g users user_id;
        _target_id := target_id;
        _changes := Some (default [] (p_changes data));
        changes_slot := None; before_slot := None; after_slot := None;
        target_slot := None |}.

(** ** Cached properties *)

(** Modelled from the spec: [utils.cached_property] is not part of the source
    at hand; the body of the property runs on the first access and its
    result is stored in a slot of the instance, which every later access
    returns.  An access is therefore a step on a world: the entry with its
    slots, and the heap of the objects made so far. *)
Definition world : Type := AuditLogEntry * list object.

Definition alloc (o : object) (h : list object) : nat * list object :=
  (length h, (h ++ [o])%list).

Definition with_changes (e : AuditLogEntry) (c : nat) : AuditLogEntry :=
  {| _state := _state e; guild := guild e; _users := _users e;
     action := action e; id := id e; reason := reason e; extra := extra e;
     user := user e; _target_id := _target_id e;
     _changes := None;
     changes_slot := Some c; before_slot := before_slot e;
     after_slot := after_slot e; target_slot := target_slot e |}.

Definition with_before (e : AuditLogEntry) (b : nat) : AuditLogEntry :=
  {| _state := _state e; guild := guild e; _users := _users e;
     action := action e; id := id e; reason := reason e; extra := extra e;
     user := user e; _target_id := _target_id e;
     _changes := _changes e;
     changes_slot := changes_slot e; before_slot := Some b;
     after_slot := after_slot e; target_slot := target_slot e |}.

Definition with_after (e : AuditLogEntry) (a : nat) : AuditLogEntry :=
  {| _state := _state e; guild := guild e; _users := _users e;
     action := action e; id := id e; reason := reason e; extra := extra e;
     user := user e; _target_id := _target_id e;
     _changes := _changes e;
     changes_slot := changes_slot e; before_slot := before_slot e;
     after_slot := Some a; target_slot := target_slot e |}.

Definition with_target (e : AuditLogEntry) (t : value) : AuditLogEntry :=
  {| _state := _state e; guild := guild e; _users := _users e;
     action := action e; id := id e; reason := reason e; extra := extra e;
     user := user e; _target_id := _target_id e;
     _changes := _changes e;
     changes_slot := changes_slot e; before_slot := before_slot e;
     after_slot := after_slot e; target_slot := Some t |}.

(** An access returns or raises, and leaves a world behind either way. *)
Definition access (A : Type) : Type := world -> result A * world.

(** [AuditLogEntry.changes]: the address of the [AuditLogChanges] object. *)
Definition changes : access nat := fun w =>
  let '(e, h) := w in
  match changes_slot e with
  | Some c => (OK c, w)
  | None =>
      match _changes e with
      | None => (Raise AttributeError, w)
      | Some data =>
          match AuditLogChanges_init e data with
          | Raise x => (Raise x, w)
          | OK (b, a) =>
              let '(lb, h) := alloc (ODiff b) h in
              let '(la, h) := alloc (ODiff a) h in
              let '(lc, h) := alloc (OChanges lb la) h in
              (OK lc, (with_changes e lc, h))
          end
      end
  end.

(** [AuditLogEntry.before]: [self.changes.before]. *)
Definition before : access nat := fun w =>
  match before_slot (fst w) with
  | Some b => (OK b, w)
  | None =>
      match changes w with
      | (Raise x, w') => (Raise x, w')
      | (OK c, (e, h)) =>
          match h !! c with
          | Some (OChanges b _) => (OK b, (with_before e b, h))
          | _ => (Raise AttributeError, (e, h))
          end
      end
  end.

(** [AuditLogEntry.after]: [self.changes.after]. *)
Definition after : access nat := fun w =>
  match after_slot (fst w) with
  | Some a => (OK a, w)
  | None =>
      match changes w with
      | (Raise x, w') => (Raise x, w')
      | (OK c, (e, h)) =>
          match h !! c with
          | Some (OChanges _ a) => (OK a, (with_after e a, h))
          | _ => (Raise AttributeError, (e, h))
          end
      end
  end.

(** The attribute bag of the diff at an address. *)
Definition attrs_at (h : list object) (l : nat) : result AuditLogDiff :=
  match h !! l with
  | Some (ODiff bag) => OK bag
  | _ => Raise AttributeError
  end.

(** [changeset.attr] *)
Definition getattr (bag : AuditLogDiff) (attr : string) : result value :=
  match bag !! attr with
  | Some v => OK v
  | None => Raise AttributeError
  end.

(** ** Target converters *)

Definition pure {A} (r : result A) : access A := fun w => (r, w).

Definition _convert_target_guild (target_id : value) : access value :=
  fun w => (OK (VEntity (Entity KGuild (guild_id (guild (fst w))))), w).

Definition cached_or_object (f : Z -> option entity) (target_id : value)
  : result value :=
  or_else (lookup f target_id) (Object target_id).

Definition _convert_target_channel (target_id : value) : access value :=
  fun w => pure (cached_or_object (get_channel (guild (fst w))) target_id) w.

Definition _convert_target_user (target_id : value) : access value :=
  fun w => (OK (_get_member (fst w) target_id), w).

Definition _convert_target_role (target_id : value) : access value :=
  fun w => pure (cached_or_object (get_role (guild (fst w))) target_id) w.

(** The invite assembled from the chosen diff. *)
Definition invite_of (changeset : AuditLogDiff) : result value :=
  max_age ← getattr changeset "max_age";
  max_uses ← getattr changeset "max_uses";
  code ← getattr changeset "code";
  temporary ← getattr changeset "temporary";
  uses ← getattr changeset "uses";
  channel ← getattr changeset "channel";
  let fake_payload :=
    [("max_age", max_age); ("max_uses", max_uses); ("code", code);
     ("temporary", temporary); ("uses", uses)] in
  OK (VInvite fake_payload channel (changeset !! "inviter")).

Definition _convert_target_invite (target_id : value) : access value :=
  fun w =>
  match (if action_is (action (fst w)) "invite_delete"
         then before w else after w) with
  | (Raise x, w') => (Raise x, w')
  | (OK l, w') => (changeset ← attrs_at (snd w') l; invite_of changeset, w')
  end.

Definition _convert_target_emoji (target_id : value) : access value :=
  fun w => pure (cached_or_object (get_emoji (_state (fst w))) target_id) w.

Definition _convert_target_message (target_id : value) : access value :=
  fun w => (OK (_get_member (fst w) target_id), w).

Definition _convert_target_stage_instance (target_id : value) : access value :=
  fun w =>
  pure (cached_or_object (get_stage_instance (guild (fst w))) target_id) w.

Definition _convert_target_sticker (target_id : value) : access value :=
  fun w => pure (cached_or_object (get_sticker (_state (fst w))) target_id) w.

Definition _convert_target_thread (target_id : value) : access value :=
  fun w => pure (cached_or_object (get_thread (guild (fst w))) target_id) w.

Definition _convert_target_scheduled_event (target_id : value)
  : access value :=
  fun w =>
  pure (cached_or_object (get_scheduled_event (guild (fst w))) target_id) w.

(** [getattr(self, f"_convert_target_{self.action.target_type}")] *)
Definition converter (target_type : option string)
  : option (value -> access value) :=
  match target_type with
  | None => None
  | Some t =>
      assoc t
        [ ("guild", _convert_target_guild);
          ("channel", _convert_target_channel);
          ("user", _convert_target_user);
          ("role", _convert_target_role);
          ("invite", _convert_target_invite);
          ("emoji", _convert_target_emoji);
          ("message", _convert_target_message);
          ("stage_instance", _convert_target_stage_instance);
          ("sticker", _convert_target_sticker);
          ("thread", _convert_target_thread);
          ("scheduled_event", _convert_target_scheduled_event) ]
  end.

(** [AuditLogEntry.target] *)
Definition target : access value := fun w =>
  match target_slot (fst w) with
  | Some t => (OK t, w)
  | None =>
      let convert :=
        match converter (target_type (action (fst w))) with
        | None => pure (Object (_target_id (fst w)))
        | Some convert => convert (_target_id (fst w))
        end in
      match convert w with
      | (Raise x, w') => (Raise x, w')
      | (OK t, (e, h)) => (OK t, (with_target e t, h))
      end
  end.

(** The properties of an entry a caller can read, and the world after a
    sequence of reads (a read that raises still leaves its world). *)
Inductive property := Changes | Before | After | Target.

Definition read (x : property) (w : world) : world :=
  match x with
  | Changes => snd (changes w)
  | Before => snd (before w)
  | After => snd (after w)
  | Target => snd (target w)
  end.

Definition reads (xs : list property) (w : world) : world :=
  foldl (fun w x => read x w) w xs.

(** An entry as its constructor leaves it. *)
Definition fresh (e : AuditLogEntry) : Prop :=
  changes_slot e = None /\ before_slot e = None /\ after_slot e = None
  /\ target_slot e = None.

End Decoder.

(** ** A small world to run the decoder in *)

Definition sample_state : ConnectionState :=
  {| _get_guild := fun v => match v with
                            | VInt 900 => Some (Entity KGuild 900)
                            | _ => None
                            end;
     get_emoji := fun _ => None;
     get_sticker := fun _ => None |}.

(** Channel 5, role 1 and member 7 are cached; nothing else is. *)
Definition sample_guild : Guild :=
  {| guild_id := 900;
     guild_state := sample_state;
     get_channel := fun z => if z =? 5 then Some (Entity KChannel 5) else None;
     get_role := fun z => if z =? 1 then Some (Entity KRole 1) else None;
     get_member := fun z => if z =? 7 then Some (Entity KMember 7) else None;
     get_stage_instance := fun _ => None;
     get_thread := fun _ => None;
     get_scheduled_event := fun _ => None |}.

(** User 8 is known to the table passed at construction. *)
Definition sample_users : gmap Z entity := {[ 8 := Entity KUser 8 ]}.

Definition member_of (n : string) (t : string) : AuditLogAction :=
  {| is_enum_member := true; name := n; target_type := Some t |}.

#[global] Instance sample_enums : Enums :=
  {| enum_value_map := fun c v =>
       match c, v with
       | ScheduledEventLocationType, VInt 1 => Some "stage_instance"
       | ScheduledEventLocationType, VInt 2 => Some "voice"
       | ScheduledEventLocationType, VInt 3 => Some "external"
       | ChannelType, VInt 0 => Some "text"
       | StickerType, VInt 1 => Some "standard"
       | _, _ => None
       end;
     audit_log_action := fun v =>
       match v with
       | VInt 1 => member_of "guild_update" "guild"
       | VInt 13 => member_of "overwrite_create" "channel"
       | VInt 14 => member_of "overwrite_update" "channel"
       | VInt 15 => member_of "overwrite_delete" "channel"
       | VInt 21 => member_of "member_prune" "user"
       | VInt 25 => member_of "member_role_update" "user"
       | VInt 40 => member_of "invite_create" "invite"
       | VInt 42 => member_of "invite_delete" "invite"
       | VInt 101 => member_of "scheduled_event_update" "scheduled_event"
       | _ => {| is_enum_member := false; name := "unknown_";
                 target_type := None |}
       end |}.

Definition change (k : string) (o n : option value) : AuditLogChangePayload :=
  {| key := k; old_value := o; new_value := n |}.

Definition sample_payload (action_type : Z) (options : option value)
  (chs : list AuditLogChangePayload) : AuditLogEntryPayload :=
  {| p_action_type := VInt action_type; p_id := VStr "1000";
     p_reason := None; p_options := options; p_changes := Some chs;
     p_user_id := Some (VStr "7"); p_target_id := None |}.

(** The sample entry for an action with no options, as the constructor
    leaves it. *)
Definition sample_entry_with (action_type : Z)
  (chs : list AuditLogChangePayload) : AuditLogEntry :=
  {| _state := sample_state; guild := sample_guild; _users := sample_users;
     action := audit_log_action (VInt action_type); id := 1000;
     reason := VNone; extra := VNone; user := VEntity (Entity KMember 7);
     _target_id := VNone; _changes := Some chs;
     changes_slot := None; before_slot := None; after_slot := None;
     target_slot := None |}.

(** The entry with no changes of its own; the change lists of the examples
    are decoded against it. *)
Definition sample_entry (action_type : Z) : AuditLogEntry :=
  sample_entry_with action_type [].

(** The changes of a deleted invite. *)
Definition invite_changes : list AuditLogChangePayload :=
  [ change "code" (Some (VStr "abc")) None;
    change "max_age" (Some (VInt 0)) None;
    change "max_uses" (Some (VInt 3)) None;
    change "temporary" (Some (VBool false)) None;
    change "uses" (Some (VInt 1)) None;
    change "channel_id" (Some (VStr "5")) None;
    change "inviter_id" (Some (VStr "7")) None ].

(** What the specification says of the [location] special case, for the bag
    it has consulted: an external location type wraps the raw value,
    otherwise a channel carried by the bag is wrapped, otherwise the value
    is kept. *)
Definition location_as_specified (bag : AuditLogDiff) (v : value) : value :=
  match bag !! "location_type" with
  | Some location_type =>
      if is_external location_type then VLocation v
      else match bag !! "channel" with
           | Some channel => VLocation channel
           | None => v
           end
  | None => match bag !! "channel" with
            | Some channel => VLocation channel
            | None => v
            end
  end.

(** The order the records are sorted by. *)
Definition key_le (x y : AuditLogChangePayload) : Prop :=
  String.le (key x) (key y).

(** The last record of a list with a given key. *)
Definition last_with_key (k : string) (l : list AuditLogChangePayload)
  : option AuditLogChangePayload :=
  last (filter (fun r => key r = k) l).

(** The keys of the records handed to a composite handler. *)
Definition composite_keys : list string :=
  ["$add"; "$remove"] ++ add_metadata_keys ++ remove_metadata_keys.

(** What every line of the table has in common: the name it resolves to is
    none of the names written outside the generic path or by the location
    special case, and its key sorts after every composite key; neither the
    key nor the name is one [setattr] does not store, and the key sorts
    after [__dict__]. *)
Definition table_line_ok (k : string) (o : option string) : bool :=
  let n := match o with
           | Some k' => if String.eqb k' "" then k else k'
           | None => k
           end in
  negb (mem n ["location"; "roles"; "color"; "expire_behaviour"])
  && forallb (fun c => negb (String.leb k c)) composite_keys
  && negb (composite k)
  && negb (reserved k) && negb (reserved n)
  && negb (String.leb k "__dict__").

(** The role list a [$add] or [$remove] record stands for, the empty
    placeholder when there is no such record. *)
Definition resolved_roles (entry : AuditLogEntry)
  (o : option AuditLogChangePayload) : result value :=
  match o with
  | None => OK (VList [])
  | Some r =>
      v ← require (new_value r);
      l ← iterate v;
      data ← list_comp (role_of entry) l;
      OK (VList data)
  end.

(** What the loop has made of [roles] after the records of [l]. *)
Definition roles_settled (entry : AuditLogEntry)
  (l : list AuditLogChangePayload) (s : AuditLogDiff * AuditLogDiff) : Prop :=
  match last_with_key "$add" l, last_with_key "$remove" l with
  | None, None => fst s !! "roles" = None /\ snd s !! "roles" = None
  | added, removed =>
      exists vb va,
        fst s !! "roles" = Some vb /\ resolved_roles entry removed = OK vb /\
        snd s !! "roles" = Some va /\ resolved_roles entry added = OK va
  end.


(** The slots of an entry agree with the heap: [before] and [after], once
    filled, hold the addresses stored in the [AuditLogChanges] object the
    [changes] slot points to. *)
Definition linked (w : world) : Prop :=
  match changes_slot (fst w) with
  | None => before_slot (fst w) = None /\ after_slot (fst w) = None
  | Some c =>
      exists b a,
        snd w !! c = Some (OChanges b a) /\
        (before_slot (fst w) = None \/ before_slot (fst w) = Some b) /\
        (after_slot (fst w) = None \/ after_slot (fst w) = Some a)
  end.

(** The [changes] slot holds [c], the raw list is gone and the heap is [h]. *)
Definition cached (c : nat) (h : list object) (w : world) : Prop :=
  changes_slot (fst w) = Some c /\ _changes (fst w) = None /\ snd w = h.

(** [AuditLogDiff.__len__]: the number of attributes. *)
Definition AuditLogDiff_len (bag : AuditLogDiff) : nat := size bag.

(** The attribute name the loop body writes for a record with key [k] (a
    record keyed [__dict__] replaces the whole bag instead). *)
Definition writes `{Enums} (k : string) : string :=
  if String.eqb k "$add" || String.eqb k "$remove" then "roles"
  else if mem k add_metadata_keys || mem k remove_metadata_keys
       then "trigger_metadata"
       else resolved_name k.

(** Two states of an entry that agree on what the decoder and the target
    converters read of it. *)
Definition same_core (e e' : AuditLogEntry) : Prop :=
  _state e' = _state e /\ guild e' = guild e /\ _users e' = _users e /\
  action e' = action e /\ _target_id e' = _target_id e.

(** The worlds a freshly constructed entry [e0] with raw changes [data] and
    heap [h0] can reach by reads: not yet decoded and untouched, or decoded
    once. *)
Definition reached `{Enums} (e0 : AuditLogEntry)
  (data : list AuditLogChangePayload) (h0 : list object) (w : world) : Prop :=
  same_core e0 (fst w) /\
  ((changes_slot (fst w) = None /\ before_slot (fst w) = None /\
    after_slot (fst w) = None /\ _changes (fst w) = Some data /\
    snd w = h0)
   \/
   (exists b a,
      AuditLogChanges_init e0 data = OK (b, a) /\
      changes_slot (fst w) = Some (S (S (length h0))) /\
      _changes (fst w) = None /\
      snd w = (h0 ++ [ODiff b; ODiff a;
                      OChanges (length h0) (S (length h0))])%list)).

(** The attributes an invite is assembled from. *)
Definition invite_fields : list string :=
  ["max_age"; "max_uses"; "code"; "temporary"; "uses"; "channel"].

(** What an [entity_type] record leaves as [location_type] on one side. *)
Definition location_type_of `{Enums} (raw : option value) : value :=
  match raw with
  | Some o => try_enum ScheduledEventLocationType o
  | None => VNone
  end.

(** Both bags carry the [location_type] of the record [rt]. *)
Definition typed `{Enums} (rt : AuditLogChangePayload)
  (s : AuditLogDiff * AuditLogDiff) : Prop :=
  fst s !! "location_type" = Some (location_type_of (old_value rt)) /\
  snd s !! "location_type" = Some (location_type_of (new_value rt)).

(** On each side whose [location_type] is the external one, the bag carries
    the raw location of the record [rl], wrapped. *)
Definition located `{Enums} (rt rl : AuditLogChangePayload)
  (s : AuditLogDiff * AuditLogDiff) : Prop :=
  (is_external (location_type_of (old_value rt)) = true ->
   fst s !! "location" = Some (VLocation (default VNone (old_value rl)))) /\
  (is_external (location_type_of (new_value rt)) = true ->
   snd s !! "location" = Some (VLocation (default VNone (new_value rl)))).

(** The cache a target converter consults, by target type. *)
Definition cache_for (e : AuditLogEntry) (t : string) : Z -> option entity :=
  if String.eqb t "channel" then get_channel (guild e)
  else if String.eqb t "role" then get_role (guild e)
  else if String.eqb t "emoji" then get_emoji (_state e)
  else if String.eqb t "stage_instance" then get_stage_instance (guild e)
  else if String.eqb t "sticker" then get_sticker (_state e)
  else if String.eqb t "thread" then get_thread (guild e)
  else get_scheduled_event (guild e).

Definition cached_kinds : list string :=
  ["channel"; "role"; "emoji"; "stage_instance"; "sticker"; "thread";
   "scheduled_event"].

(** The sample tables with four more actions. *)
Definition more_enums : Enums :=
  {| enum_value_map := @enum_value_map sample_enums;
     audit_log_action := fun v =>
       match v with
       | VInt 26 => member_of "member_move" "user"
       | VInt 72 => member_of "message_delete" "message"
       | VInt 74 => member_of "message_pin" "message"
       | VInt 83 => member_of "stage_instance_create" "stage_instance"
       | _ => @audit_log_action sample_enums v
       end |}.

(** The sample entry with a target id. *)
Definition sample_entry_at (action_type target_id : Z) : AuditLogEntry :=
  {| _state := sample_state; guild := sample_guild; _users := sample_users;
     action := audit_log_action (VInt action_type); id := 1000;
     reason := VNone; extra := VNone; user := VEntity (Entity KMember 7);
     _target_id := VInt target_id; _changes := Some [];
     changes_slot := None; before_slot := None; after_slot := None;
     target_slot := None |}.

(** The table keys whose transformer converts with [int] or iterates
    without a test for [None], and those whose transformer starts with
    [if data is None: return None]. *)
Definition null_rejecting : list string :=
  ["allow"; "deny"; "permissions"; "id"; "command_id";
   "permission_overwrites"].

Definition null_tolerant : list string :=
  ["owner_id"; "inviter_id"; "channel_id"; "afk_channel_id";
   "system_channel_id"; "widget_channel_id"; "rules_channel_id";
   "public_updates_channel_id"; "splash_hash"; "banner_hash";
   "discovery_splash_hash"; "icon_hash"; "avatar_hash"; "guild_id";
   "image_hash"; "actions"; "trigger_metadata"; "exempt_roles";
   "exempt_channels"].

(** * Properties *)

Example int_examples :
  int (VStr "42") = OK 42 /\ int (VStr " -1_000 ") = OK (-1000) /\
  int (VStr "4_") = Raise ValueError /\ int (VStr "") = Raise ValueError /\
  int VNone = Raise TypeError.
Proof. repeat split; reflexivity. Qed.

Example split_examples :
  split_last "$add_keyword_filter" = "keyword_filter" /\
  split_last "$remove_allow_list" = "allow_list" /\
  split_last "$add" = "$add" /\
  endswith "message_unpin" "pin" = true /\
  startswith "overwrite_create" "overwrite_" = true.
Proof. repeat split; reflexivity. Qed.

Example sample_entry_decoded :
  _from_data sample_users (sample_payload 1 None []) sample_guild
  = OK (sample_entry 1).
Proof. reflexivity. Qed.

Section Properties.
Context `{Enums}.

(** ** Sorting *)

Lemma insert_by_key_perm x l : insert_by_key x l ≡ₚ x :: l.
Proof.
  induction l as [|y l IH]; simpl; [done|].
  destruct (String.leb (key x) (key y)); [done|].
  rewrite IH. apply perm_swap.
Qed.

Lemma sorted_perm data : sorted data ≡ₚ data.
Proof.
  induction data as [|x l IH]; simpl; [done|].
  by rewrite insert_by_key_perm, IH.
Qed.

Lemma elem_of_sorted r data : r ∈ sorted data ↔ r ∈ data.
Proof. by rewrite sorted_perm. Qed.

Lemma insert_by_key_sorted x l :
  StronglySorted key_le l -> StronglySorted key_le (insert_by_key x l).
Proof.
  induction 1 as [|y l Hl IH Hy]; simpl.
  - repeat constructor.
  - destruct (String.leb (key x) (key y)) eqn:E.
    + constructor; [by constructor|].
      assert (key_le x y) as Hxy by (unfold key_le, String.le; by rewrite E).
      constructor; [done|].
      eapply Forall_impl; [exact Hy|].
      intros z Hz. unfold key_le in *. by etrans.
    + constructor; [done|].
      rewrite insert_by_key_perm. constructor; [|done].
      destruct (total String.le (key x) (key y)) as [Hle|Hle]; [|done].
      unfold String.le in Hle. rewrite E in Hle. done.
Qed.

Lemma sorted_sorted data : StronglySorted key_le (sorted data).
Proof.
  induction data; simpl; [constructor|by apply insert_by_key_sorted].
Qed.

(** Two arrangements of the same records sort to the same list as soon as
    the key determines the record. *)
Lemma sorted_unique l1 l2 :
  l1 ≡ₚ l2 ->
  (forall x y, x ∈ l1 -> y ∈ l1 -> key x = key y -> x = y) ->
  sorted l1 = sorted l2.
Proof.
  intros Hp Hk.
  apply (StronglySorted_unique_strong key_le); try apply sorted_sorted.
  - intros x y Hx Hy Hxy Hyx. apply Hk.
    + by apply elem_of_sorted.
    + rewrite Hp. by apply elem_of_sorted.
    + unfold key_le in *. by apply (anti_symm String.le).
  - by rewrite !sorted_perm.
Qed.

(** C2, as amended: two change lists that are permutations of each other,
    and in which two records with the same key are the same record, decode
    for the same entry to the same result (the same pair of bags, or the
    same exception). *)
Theorem decode_order_independent (entry : AuditLogEntry)
  (l1 l2 : list AuditLogChangePayload) :
  l1 ≡ₚ l2 ->
  (forall x y, x ∈ l1 -> y ∈ l1 -> key x = key y -> x = y) ->
  AuditLogChanges_init entry l1 = AuditLogChanges_init entry l2.
Proof.
  intros Hp Hk. unfold AuditLogChanges_init.
  by rewrite (sorted_unique l1 l2 Hp Hk).
Qed.

(** ** Fallible computations *)

Lemma bind_OK {A B} (m : result A) (f : A -> result B) b :
  m ≫= f = OK b <-> exists a, m = OK a /\ f a = OK b.
Proof.
  destruct m as [a|e]; simpl; split.
  - eauto.
  - by intros (a' & [= <-] & ?).
  - done.
  - by intros (a' & ? & ?).
Qed.

Lemma fmap_OK {A B} (m : result A) (f : A -> B) b :
  f <$> m = OK b <-> exists a, m = OK a /\ b = f a.
Proof.
  destruct m as [a|e]; simpl; split.
  - intros [= <-]. eauto.
  - by intros (a' & [= <-] & ->).
  - done.
  - by intros (a' & ? & ?).
Qed.

Ltac bind_inv H :=
  let a := fresh "v" in
  let E := fresh "E" in
  lazymatch type of H with
  | (_ ≫= _) = OK _ => apply bind_OK in H as (a & E & H)
  | (_ <$> _) = OK _ => apply fmap_OK in H as (a & E & H)
  end.

(** ** The transform table *)

Lemma assoc_elem_of {A} k (l : list (string * A)) v :
  assoc k l = Some v -> (k, v) ∈ l.
Proof.
  induction l as [|[k' v'] l IH]; simpl; [done|].
  destruct (String.eqb_spec k k') as [->|_].
  - intros [= ->]. apply list_elem_of_here.
  - intros Hl. apply list_elem_of_further. auto.
Qed.

Lemma mem_elem_of k l : mem k l = true -> k ∈ l.
Proof.
  unfold mem. induction l as [|x l IH]; simpl; [done|].
  intros Hk. apply orb_true_iff in Hk as [Hk|Hk].
  - apply String.eqb_eq in Hk as ->. by left.
  - right. auto.
Qed.

Lemma composite_elem_of k : composite k = true -> k ∈ composite_keys.
Proof.
  unfold composite, mem, composite_keys. simpl. intros Hk.
  repeat (apply orb_true_iff in Hk as [Hk|Hk]);
    try (apply String.eqb_eq in Hk as ->); try discriminate;
    repeat (first [apply list_elem_of_here | apply list_elem_of_further]).
Qed.

Lemma table_lines k o t :
  assoc k TRANSFORMERS = Some (o, t) -> table_line_ok k o = true.
Proof.
  intros Hk. apply assoc_elem_of in Hk. unfold TRANSFORMERS in Hk.
  repeat (apply elem_of_cons in Hk as [Hk|Hk];
          [injection Hk as -> -> _; reflexivity|]).
  by apply elem_of_nil in Hk.
Qed.

Lemma resolved_name_table k :
  (assoc k TRANSFORMERS = None /\ resolve k = (k, None)) \/
  (exists o t, assoc k TRANSFORMERS = Some (o, t) /\
               table_line_ok k o = true /\
               transformer_of k = t /\
               resolved_name k = match o with
                                 | Some k' => if String.eqb k' "" then k else k'
                                 | None => k
                                 end).
Proof.
  unfold transformer_of, resolved_name, resolve.
  destruct (assoc k TRANSFORMERS) as [[o t]|] eqn:E; [right|left; done].
  exists o, t. split; [done|]. split; [by eapply table_lines|].
  by destruct o.
Qed.

Lemma resolved_name_location k :
  resolved_name k = "location" ->
  k = "location" /\ transformer_of k = None /\ composite k = false.
Proof.
  intros Hn.
  destruct (resolved_name_table k) as [[_ Hr]|(o & t & _ & Hok & _ & Hrn)].
  - unfold resolved_name in Hn. rewrite Hr in Hn. simpl in Hn. subst k.
    by vm_compute.
  - rewrite Hn in Hrn. unfold table_line_ok in Hok. rewrite <- Hrn in Hok.
    discriminate.
Qed.

(** ** Attribute assignment *)

Lemma setattr_plain bag attr v :
  reserved attr = false -> setattr bag attr v = OK (<[attr := v]> bag).
Proof.
  unfold reserved, mem, setattr. simpl. intros Hr.
  apply orb_false_iff in Hr as [-> Hr].
  apply orb_false_iff in Hr as [-> Hr].
  by apply orb_false_iff in Hr as [-> _].
Qed.

Lemma setattr_OK bag attr v bag' :
  setattr bag attr v = OK bag' ->
  (attr = "__dict__" /\ exists d, v = VDict d /\ bag' = list_to_map d) \/
  (reserved attr = false /\ bag' = <[attr := v]> bag).
Proof.
  unfold setattr, reserved, mem. simpl.
  destruct (String.eqb_spec attr "__dict__") as [->|_].
  { destruct v; try done. intros [= <-]. left. eauto. }
  destruct (String.eqb attr "__class__"); [done|].
  destruct (String.eqb attr "__weakref__"); [done|].
  intros [= <-]. by right.
Qed.

Lemma setattr_stores bag attr v bag' :
  attr <> "__dict__" -> setattr bag attr v = OK bag' ->
  reserved attr = false /\ bag' = <[attr := v]> bag.
Proof.
  intros Hd Hs. by apply setattr_OK in Hs as [[? _]|?].
Qed.

(** Whether an assignment is accepted does not depend on the bag. *)
Lemma setattr_returns_any bag bag' attr v :
  returns (setattr bag attr v) -> returns (setattr bag' attr v).
Proof.
  unfold setattr.
  destruct (String.eqb attr "__dict__"); [by destruct v|].
  destruct (String.eqb attr "__class__"); [by intros [? ?]|].
  destruct (String.eqb attr "__weakref__"); [by intros [? ?]|].
  intros _. by eexists.
Qed.

(** The table renames no field to a name that is not stored, and lists no
    such name. *)
Lemma reserved_resolved k : reserved (resolved_name k) = reserved k.
Proof.
  destruct (resolved_name_table k) as [[_ Hr]|(o & t & _ & Hok & _ & Hrn)].
  - unfold resolved_name. by rewrite Hr.
  - unfold table_line_ok in Hok. rewrite <- Hrn in Hok.
    apply andb_true_iff in Hok as [Hok _].
    apply andb_true_iff in Hok as [Hok Hn].
    apply andb_true_iff in Hok as [_ Hk].
    apply negb_true_iff in Hn, Hk. by rewrite Hn, Hk.
Qed.

Lemma reserved_dict k : reserved k = false -> k <> "__dict__".
Proof. by intros Hr ->. Qed.

Lemma resolved_name_dict k : resolved_name k = "__dict__" -> k = "__dict__".
Proof.
  intros Hn.
  destruct (resolved_name_table k) as [[_ Hr]|(o & t & _ & Hok & _ & Hrn)].
  - unfold resolved_name in Hn. by rewrite Hr in Hn.
  - assert (reserved (resolved_name k) = true) as Hres by (by rewrite Hn).
    unfold table_line_ok in Hok. rewrite <- Hrn in Hok.
    apply andb_true_iff in Hok as [Hok _].
    apply andb_true_iff in Hok as [_ Hn'].
    apply negb_true_iff in Hn'. congruence.
Qed.

(** ** The loop body *)

Lemma step_generic entry s r :
  composite (key r) = false -> step entry s r = generic entry (fst s) (snd s) r.
Proof.
  unfold composite, step. destruct s as [b a]. simpl.
  intros Hc.
  apply orb_false_iff in Hc as [Hc Hrm].
  apply orb_false_iff in Hc as [Hc Hadd].
  apply orb_false_iff in Hc as [Ha Hr].
  by rewrite Ha, Hr, Hadd, Hrm.
Qed.

(** What the generic path leaves behind, when it returns. *)
Lemma generic_OK entry b a r b' a' :
  generic entry b a r = OK (b', a') <->
  exists vb va,
    side (transformer_of (key r)) entry (old_value r) = OK vb /\
    side (transformer_of (key r)) entry (new_value r) = OK va /\
    setattr b (resolved_name (key r)) (locate (resolved_name (key r)) b vb)
    = OK b' /\
    setattr a (resolved_name (key r)) (locate (resolved_name (key r)) a va)
    = OK a'.
Proof.
  unfold generic, transformer_of, resolved_name.
  destruct (resolve (key r)) as [attr t]. simpl.
  split.
  - intros Hg. do 4 (bind_inv Hg). injection Hg as <- <-. eauto 10.
  - intros (vb & va & -> & -> & Hb & Ha). simpl. rewrite Hb. simpl.
    by rewrite Ha.
Qed.

(** A record whose key is not [__dict__] is stored under its resolved
    name. *)
Lemma generic_stores entry b a r b' a' :
  key r <> "__dict__" ->
  generic entry b a r = OK (b', a') ->
  exists vb va,
    side (transformer_of (key r)) entry (old_value r) = OK vb /\
    side (transformer_of (key r)) entry (new_value r) = OK va /\
    b' = <[resolved_name (key r) := locate (resolved_name (key r)) b vb]> b /\
    a' = <[resolved_name (key r) := locate (resolved_name (key r)) a va]> a.
Proof.
  intros Hk Hg. apply generic_OK in Hg as (vb & va & Hvb & Hva & Hb & Ha).
  assert (resolved_name (key r) <> "__dict__") as Hn
    by (intros Hn; by apply resolved_name_dict in Hn).
  apply setattr_stores in Hb as [_ ->]; [|done].
  apply setattr_stores in Ha as [_ ->]; [|done]. eauto 10.
Qed.

Lemma generic_plain entry b a r b' a' :
  reserved (key r) = false ->
  generic entry b a r = OK (b', a') <->
  exists vb va,
    side (transformer_of (key r)) entry (old_value r) = OK vb /\
    side (transformer_of (key r)) entry (new_value r) = OK va /\
    b' = <[resolved_name (key r) := locate (resolved_name (key r)) b vb]> b /\
    a' = <[resolved_name (key r) := locate (resolved_name (key r)) a va]> a.
Proof.
  intros Hr. split.
  - apply generic_stores. by apply reserved_dict.
  - intros (vb & va & Hvb & Hva & -> & ->). apply generic_OK.
    exists vb, va. rewrite !setattr_plain by (by rewrite reserved_resolved).
    done.
Qed.

(** A record keyed [__dict__] replaces both bags, and needs a dictionary on
    each side. *)
Lemma generic_dict entry b a r b' a' :
  key r = "__dict__" ->
  generic entry b a r = OK (b', a') <->
  exists db da,
    old_value r = Some (VDict db) /\ new_value r = Some (VDict da) /\
    b' = list_to_map db /\ a' = list_to_map da.
Proof.
  intros Hk. unfold generic. rewrite Hk.
  change (resolve "__dict__") with ("__dict__", @None Transformer).
  unfold side, locate, setattr. simpl. split.
  - intros Hg. destruct (old_value r) as [[]|]; try done.
    destruct (new_value r) as [[]|]; try done.
    injection Hg as <- <-. eauto 10.
  - by intros (db & da & -> & -> & -> & ->).
Qed.

Lemma handle_role_OK first second entry elem f' s' :
  _handle_role first second entry elem = OK (f', s') <->
  exists l data,
    iterate elem = OK l /\ list_comp (role_of entry) l = OK data /\
    f' = match first !! "roles" with
         | Some _ => first
         | None => <["roles" := VList []]> first
         end /\
    s' = <["roles" := VList data]> second.
Proof.
  unfold _handle_role. split.
  - intros Hh. bind_inv Hh. bind_inv Hh. injection Hh as <- <-. eauto 10.
  - intros (l & data & -> & Hd & -> & ->). simpl. by rewrite Hd.
Qed.

Lemma is_Some_placeholder (bag : AuditLogDiff) k k' v :
  is_Some (bag !! k) ->
  is_Some (match bag !! k' with
           | Some _ => bag
           | None => <[k' := v]> bag
           end !! k).
Proof.
  intros Hk. destruct (bag !! k'); [done|].
  rewrite lookup_insert_is_Some. destruct (decide (k' = k)); auto.
Qed.

Lemma is_Some_insert (bag : AuditLogDiff) k k' v :
  is_Some (bag !! k) -> is_Some (<[k' := v]> bag !! k).
Proof.
  intros Hk. rewrite lookup_insert_is_Some.
  destruct (decide (k' = k)); auto.
Qed.

Lemma handle_trigger_metadata_OK first second entry elem attr f' s' :
  _handle_trigger_metadata first second entry elem attr = OK (f', s') <->
  f' = match first !! "trigger_metadata" with
       | Some _ => first
       | None => <["trigger_metadata" := VNone]> first
       end /\
  s' = <["trigger_metadata" :=
           VTriggerMetadata (VDict [(split_last attr, elem)])]> second.
Proof.
  unfold _handle_trigger_metadata. split.
  - by intros [= <- <-].
  - by intros [-> ->].
Qed.

(** The five ways through the loop body. *)
Lemma step_OK entry b a r b' a' :
  step entry (b, a) r = OK (b', a') ->
  (exists v, key r = "$add" /\ new_value r = Some v /\
             _handle_role b a entry v = OK (b', a')) \/
  (exists v, key r = "$remove" /\ new_value r = Some v /\
             _handle_role a b entry v = OK (a', b')) \/
  (exists v, mem (key r) add_metadata_keys = true /\ new_value r = Some v /\
             _handle_trigger_metadata b a entry v (key r) = OK (b', a')) \/
  (exists v, mem (key r) remove_metadata_keys = true /\ new_value r = Some v /\
             _handle_trigger_metadata a b entry v (key r) = OK (a', b')) \/
  (composite (key r) = false /\ generic entry b a r = OK (b', a')).
Proof.
  unfold step, composite.
  destruct (String.eqb_spec (key r) "$add") as [Ha|Ha].
  { intros Hs. bind_inv Hs. left. exists v.
    destruct (new_value r); [|done]. by injection E as ->. }
  destruct (String.eqb_spec (key r) "$remove") as [Hr|Hr].
  { intros Hs. bind_inv Hs. bind_inv Hs. right; left. exists v.
    destruct (new_value r); [|done]. injection E as ->.
    destruct v0. by injection Hs as -> ->. }
  destruct (mem (key r) add_metadata_keys) eqn:Hma.
  { intros Hs. bind_inv Hs. do 2 right; left. exists v.
    destruct (new_value r); [|done]. by injection E as ->. }
  destruct (mem (key r) remove_metadata_keys) eqn:Hmr.
  { intros Hs. bind_inv Hs. bind_inv Hs. do 3 right; left. exists v.
    destruct (new_value r); [|done]. injection E as ->.
    destruct v0. by injection Hs as -> ->. }
  intros Hs. by do 4 right.
Qed.

(** The records after a record [r] of a sorted list have keys that are not
    below the key of [r]. *)
Lemma key_le_not_dict r x :
  String.leb (key r) "__dict__" = false -> key_le r x -> key x <> "__dict__".
Proof.
  intros Hr Hx Hk. unfold key_le, String.le in Hx. rewrite Hk, Hr in Hx. done.
Qed.

(** No step removes an attribute from either bag, unless its record is keyed
    [__dict__]. *)
Lemma step_keeps entry s r s' k :
  key r <> "__dict__" ->
  step entry s r = OK s' ->
  (is_Some (fst s !! k) -> is_Some (fst s' !! k)) /\
  (is_Some (snd s !! k) -> is_Some (snd s' !! k)).
Proof.
  destruct s as [b a], s' as [b' a']. intros Hk Hs.
  apply step_OK in Hs
    as [(v & _ & _ & Hs)|[(v & _ & _ & Hs)|[(v & _ & _ & Hs)|
       [(v & _ & _ & Hs)|(_ & Hs)]]]]; simpl.
  - apply handle_role_OK in Hs as (? & ? & _ & _ & -> & ->).
    split; auto using is_Some_placeholder, is_Some_insert.
  - apply handle_role_OK in Hs as (? & ? & _ & _ & -> & ->).
    split; auto using is_Some_placeholder, is_Some_insert.
  - apply handle_trigger_metadata_OK in Hs as [-> ->].
    split; auto using is_Some_placeholder, is_Some_insert.
  - apply handle_trigger_metadata_OK in Hs as [-> ->].
    split; auto using is_Some_placeholder, is_Some_insert.
  - apply generic_stores in Hs as (? & ? & _ & _ & -> & ->); [|done].
    split; auto using is_Some_insert.
Qed.

Lemma loop_keeps entry l s s' k :
  (forall r, r ∈ l -> key r <> "__dict__") ->
  loop entry s l = OK s' ->
  (is_Some (fst s !! k) -> is_Some (fst s' !! k)) /\
  (is_Some (snd s !! k) -> is_Some (snd s' !! k)).
Proof.
  revert s. induction l as [|r l IH]; simpl; intros s Hk Hl.
  - by injection Hl as <-.
  - bind_inv Hl. apply (step_keeps _ _ _ _ k) in E as [Hb Ha];
      [|apply Hk; by left].
    apply IH in Hl as [Hb' Ha']; [auto|].
    intros r' Hr'. apply Hk. by right.
Qed.

Lemma alias_keeps x y s s' k :
  alias x y s = OK s' ->
  (is_Some (fst s !! k) -> is_Some (fst s' !! k)) /\
  (is_Some (snd s !! k) -> is_Some (snd s' !! k)).
Proof.
  destruct s as [b a]. unfold alias.
  destruct (a !! x); [destruct (b !! x)|]; intros [= <-]; simpl;
    auto using is_Some_insert.
Qed.

Lemma loop_sets_both entry l s s' r :
  StronglySorted key_le l ->
  r ∈ l -> composite (key r) = false ->
  (forall r', r' ∈ l -> key r' = "__dict__" ->
              String.leb (key r) "__dict__" = false) ->
  loop entry s l = OK s' ->
  is_Some (fst s' !! resolved_name (key r)) /\
  is_Some (snd s' !! resolved_name (key r)).
Proof.
  intros Hsorted Hr Hc. revert s.
  induction Hsorted as [|x l Hl IH Hx]; intros s Hd Hloop;
    [by apply elem_of_nil in Hr|].
  simpl in Hloop. bind_inv Hloop.
  apply elem_of_cons in Hr as [<-|Hr];
    [|eapply IH; eauto; intros r' Hr'; apply Hd; by right].
  assert (key r <> "__dict__") as Hk.
  { intros Hk. specialize (Hd r (list_elem_of_here _ _) Hk).
    by rewrite Hk in Hd. }
  rewrite step_generic in E by done.
  destruct v as [b' a'].
  apply generic_stores in E as (? & ? & _ & _ & -> & ->); [|done].
  apply (loop_keeps _ _ _ _ (resolved_name (key r))) in Hloop as [Hb Ha].
  - simpl in *. split; [apply Hb|apply Ha]; by rewrite lookup_insert_eq.
  - intros r' Hr' Hk'.
    pose proof (Hd r' (list_elem_of_further _ _ _ Hr') Hk') as Hlt.
    rewrite Forall_forall in Hx.
    by apply (key_le_not_dict r r' Hlt (Hx r' Hr')).
Qed.

(** C1, as amended: a record on the generic path that no record keyed
    [__dict__] is processed after (every such record of the list sorts
    before it) sets its field's resolved name in both bags of the decoded
    result, whether or not it carries [old_value] and [new_value];
    processing a record that omits [old_value] stores [None] under that name
    in the before bag (wrapped into a location object where the location
    special case applies), and symmetrically for [new_value] and the after
    bag. *)
Theorem omitted_side_is_set (entry : AuditLogEntry)
  (data : list AuditLogChangePayload) (b a : AuditLogDiff)
  (r : AuditLogChangePayload) :
  AuditLogChanges_init entry data = OK (b, a) ->
  r ∈ data ->
  composite (key r) = false ->
  (forall r', r' ∈ data -> key r' = "__dict__" ->
              String.leb (key r) "__dict__" = false) ->
  let n := resolved_name (key r) in
  is_Some (b !! n) /\ is_Some (a !! n) /\
  forall s s', step entry s r = OK s' ->
    (old_value r = None -> fst s' !! n = Some (locate n (fst s) VNone)) /\
    (new_value r = None -> snd s' !! n = Some (locate n (snd s) VNone)).
Proof.
  intros Hd Hr Hc Hdict n. unfold AuditLogChanges_init in Hd.
  bind_inv Hd. bind_inv Hd.
  assert (key r <> "__dict__") as Hk.
  { intros Hk. specialize (Hdict r Hr Hk). by rewrite Hk in Hdict. }
  apply elem_of_sorted in Hr.
  assert (forall r', r' ∈ sorted data -> key r' = "__dict__" ->
                     String.leb (key r) "__dict__" = false) as Hdict'
    by (intros r' Hr'; apply Hdict; by apply elem_of_sorted).
  destruct (loop_sets_both _ _ _ _ _ (sorted_sorted data) Hr Hc Hdict' E)
    as [Hb Ha].
  apply (alias_keeps _ _ _ _ n) in E0 as [Hb0 Ha0].
  apply (alias_keeps _ _ _ _ n) in Hd as [Hb1 Ha1]. simpl in *.
  split; [auto|]. split; [auto|].
  intros s s' Hs. rewrite step_generic in Hs by done.
  destruct s' as [b' a'].
  apply generic_stores in Hs as (vb & va & Hvb & Hva & -> & ->); [|done].
  simpl. subst n.
  split; intros Hnone; rewrite Hnone in *; simpl in *;
    rewrite lookup_insert_eq; congruence.
Qed.

(** ** The location special case *)

(** C3, as amended: a record whose resolved attribute name is [location] is
    always stored, and for each side the bag consulted is that side's own:
    if it already carries a [location_type] that is the external one, the
    stored value is a location object wrapping the raw value ([None] when
    the side is omitted); if it carries another [location_type] and a
    [channel], a location object wrapping that channel; in every other case,
    among them a bag without [location_type], the raw value as it is. *)
Theorem location_special_case (entry : AuditLogEntry) (b a : AuditLogDiff)
  (r : AuditLogChangePayload) :
  resolved_name (key r) = "location" ->
  let stored (bag bag' : AuditLogDiff) (raw : value) : Prop :=
    (forall t, bag !! "location_type" = Some t -> is_external t = true ->
       bag' !! "location" = Some (VLocation raw)) /\
    (forall t c, bag !! "location_type" = Some t -> is_external t = false ->
       bag !! "channel" = Some c ->
       bag' !! "location" = Some (VLocation c)) /\
    (forall t, bag !! "location_type" = Some t -> is_external t = false ->
       bag !! "channel" = None ->
       bag' !! "location" = Some raw) /\
    (bag !! "location_type" = None -> bag' !! "location" = Some raw) in
  exists b' a',
    step entry (b, a) r = OK (b', a') /\
    stored b b' (default VNone (old_value r)) /\
    stored a a' (default VNone (new_value r)).
Proof.
  intros Hn stored.
  destruct (resolved_name_location _ Hn) as (Hk & Ht & Hc).
  rewrite step_generic by done. simpl.
  assert (forall raw, side (transformer_of (key r)) entry raw
                      = OK (default VNone raw)) as Hside.
  { intros raw. rewrite Ht. by destruct raw. }
  eexists _, _. split.
  { apply generic_plain; [by rewrite Hk|]. eexists _, _. by rewrite !Hside. }
  rewrite Hn. unfold stored, locate. simpl.
  split; (split; [|split; [|split]]).
  all: first [ intros t c Hlt He Hch | intros t Hlt He Hch
             | intros t Hlt He | intros Hlt ];
       rewrite lookup_insert_eq, Hlt;
       try rewrite He; try rewrite Hch; done.
Qed.

(** ** Lookups that miss *)

Lemma list_comp_Forall2 {A B} (f : A -> result B) l l' :
  Forall2 (fun x y => f x = OK y) l l' -> list_comp f l = OK l'.
Proof.
  induction 1 as [|x y l l' Hxy _ IH]; simpl; [done|].
  by rewrite Hxy, IH.
Qed.

Lemma Object_int data z : int data = OK z -> Object data = OK (VObject z None).
Proof. unfold Object. by intros ->. Qed.

Lemma transform_channel_miss entry data z :
  int data = OK z -> get_channel (guild entry) z = None ->
  _transform_channel entry data = OK (VObject z None).
Proof.
  intros Hi Hm. unfold _transform_channel.
  assert ((i ← int data; or_else (get_channel (guild entry) i) (Object data))
          = OK (VObject z None)) as Hz.
  { rewrite Hi. simpl. rewrite Hm. simpl. by apply Object_int. }
  by destruct data.
Qed.

(** C4, as amended: on an id that [int] accepts, a cache miss in the
    channel, channel-list, role-list and overwrite-target transforms, in the
    role stubs of [$add]/[$remove] and in the target converters raises
    nothing and gives no null: the result is an opaque reference carrying
    the numeric id.  On a miss a role stub is asked for its display name,
    which the reference then carries; a stub without one raises [KeyError].
    The member transform (owner, inviter) falls back to the entry's user
    table and gives [None] when that misses too, and the guild transform
    gives [None] on a miss. *)
Theorem lookup_miss_degrades (entry : AuditLogEntry) (data : value) (z : Z) :
  int data = OK z ->
  (get_channel (guild entry) z = None ->
     _transform_channel entry data = OK (VObject z None)) /\
  (forall l zs,
     Forall2 (fun d z => int d = OK z /\ get_channel (guild entry) z = None)
       l zs ->
     _transform_channels entry (VList l)
     = OK (VList (map (fun z => VObject z None) zs))) /\
  (forall l zs,
     Forall2 (fun d z => int d = OK z /\ get_role (guild entry) z = None)
       l zs ->
     _transform_roles entry (VList l)
     = OK (VList (map (fun z => VObject z None) zs))) /\
  (forall stub n,
     getitem stub "id" = OK data -> getitem stub "name" = OK n ->
     get_role (guild entry) z = None ->
     role_of entry stub = OK (VObject z (Some n))) /\
  (forall d,
     assoc "id" d = Some data -> assoc "name" d = None ->
     get_role (guild entry) z = None ->
     role_of entry (VDict d) = Raise KeyError) /\
  (forall elem allow deny t p q,
     getitem elem "allow" = OK allow -> int allow = OK p ->
     getitem elem "deny" = OK deny -> int deny = OK q ->
     getitem elem "type" = OK t -> getitem elem "id" = OK data ->
     (eq_int t 0 = true -> get_role (guild entry) z = None) ->
     (eq_int t 0 = false -> eq_int t 1 = true ->
      _get_member entry (VInt z) = VNone) ->
     overwrite_of entry elem
     = OK (VTuple (VObject z None) (VOverwrite p q))) /\
  (forall f, f z = None ->
     cached_or_object f (VInt z) = OK (VObject z None)) /\
  (get_member (guild entry) z = None ->
     _transform_member_id entry data
     = OK (match _users entry !! z with
           | Some u => VEntity u
           | None => VNone
           end)) /\
  (_get_guild (_state entry) data = None ->
     _transform_guild_id entry data = OK VNone).
Proof.
  intros Hi. repeat split.
  - by apply transform_channel_miss.
  - intros l zs Hl. unfold _transform_channels. simpl.
    rewrite (list_comp_Forall2 _ l (map (fun z => VObject z None) zs));
      [done|].
    induction Hl as [|d z' l zs [Hd Hm] _ IH]; constructor; [|done].
    by apply transform_channel_miss.
  - intros l zs Hl. unfold _transform_roles. simpl.
    rewrite (list_comp_Forall2 _ l (map (fun z => VObject z None) zs));
      [done|].
    induction Hl as [|d z' l zs [Hd Hm] _ IH]; constructor; [|done].
    simpl. rewrite Hd. simpl. rewrite Hm. simpl. by apply Object_int.
  - intros stub n Hid Hn Hm. unfold role_of.
    rewrite Hid. simpl. rewrite Hi. simpl. rewrite Hm, Hn. done.
  - intros d Hid Hn Hm. unfold role_of, getitem.
    rewrite Hid. simpl. rewrite Hi. simpl. by rewrite Hm, Hn.
  - intros elem allow deny t p q Ha Hp Hd Hq Ht Hid Hrole Hmem.
    unfold overwrite_of.
    rewrite Ha; simpl; rewrite Hp; simpl; rewrite Hd; simpl; rewrite Hq; simpl.
    rewrite Ht; simpl; rewrite Hid; simpl; rewrite Hi; simpl.
    destruct (eq_int t 0) eqn:E0.
    + by rewrite Hrole.
    + destruct (eq_int t 1) eqn:E1; [|done]. by rewrite Hmem.
  - intros f Hf. unfold cached_or_object. simpl. by rewrite Hf.
  - intros Hm. unfold _transform_member_id.
    assert ((i ← int data; OK (_get_member entry (VInt i)))
            = OK (match _users entry !! z with
                  | Some u => VEntity u
                  | None => VNone
                  end)) as Hz.
    { rewrite Hi. simpl. unfold _get_member, get_member_of. simpl.
      by rewrite Hm. }
    by destruct data.
  - intros Hm. unfold _transform_guild_id. rewrite Hm.
    by destruct data.
Qed.

(** ** Role lists *)

Lemma loop_app entry s l1 l2 :
  loop entry s (l1 ++ l2) = s' ← loop entry s l1; loop entry s' l2.
Proof.
  revert s. induction l1 as [|x l1 IH]; intros s; simpl; [done|].
  destruct (step entry s x); simpl; [apply IH|done].
Qed.

Lemma loop_snoc_OK entry s l x s' :
  loop entry s (l ++ [x]) = OK s' <->
  exists s0, loop entry s l = OK s0 /\ step entry s0 x = OK s'.
Proof.
  rewrite loop_app, bind_OK. simpl.
  split; intros (s0 & Hl & Hs); exists s0; split; try done.
  - by destruct (step entry s0 x).
  - by rewrite Hs.
Qed.

Lemma String_le_refl k : String.leb k k = true.
Proof.
  pose proof (reflexivity (R := String.le) k) as Hk.
  unfold String.le in Hk. by destruct (String.leb k k).
Qed.

(** The sort keeps records of equal key in their input order. *)
Lemma filter_insert_by_key k x l :
  filter (fun r => key r = k) (insert_by_key x l)
  = filter (fun r => key r = k) (x :: l).
Proof.
  induction l as [|y l IH]; simpl; [done|].
  destruct (String.leb (key x) (key y)) eqn:E; [done|].
  rewrite (filter_cons _ y), IH, !(filter_cons _ x), (filter_cons _ y).
  repeat case_decide; try done.
  assert (key x = key y) as Hxy by congruence.
  rewrite Hxy, String_le_refl in E. done.
Qed.

Lemma filter_sorted k data :
  filter (fun r => key r = k) (sorted data)
  = filter (fun r => key r = k) data.
Proof.
  induction data as [|x l IH]; simpl; [done|].
  by rewrite filter_insert_by_key, !filter_cons, IH.
Qed.

Lemma last_with_key_sorted k data :
  last_with_key k (sorted data) = last_with_key k data.
Proof. unfold last_with_key. by rewrite filter_sorted. Qed.

Lemma last_with_key_snoc k l x :
  last_with_key k (l ++ [x])
  = if decide (key x = k) then Some x else last_with_key k l.
Proof.
  unfold last_with_key. rewrite filter_app, filter_cons, filter_nil.
  case_decide; [apply last_snoc|by rewrite app_nil_r].
Qed.

Lemma resolved_name_roles k : resolved_name k = "roles" -> k = "roles".
Proof.
  intros Hn.
  destruct (resolved_name_table k) as [[_ Hr]|(o & t & _ & Hok & _ & Hrn)].
  - unfold resolved_name in Hn. by rewrite Hr in Hn.
  - rewrite Hn in Hrn. unfold table_line_ok in Hok. rewrite <- Hrn in Hok.
    discriminate.
Qed.

Lemma mem_neq k l k' : mem k l = true -> mem k' l = false -> k <> k'.
Proof. by intros Hk Hk' ->; rewrite Hk in Hk'. Qed.

Lemma lookup_placeholder_ne (bag : AuditLogDiff) k k' v :
  k' <> k ->
  match bag !! k' with
  | Some _ => bag
  | None => <[k' := v]> bag
  end !! k = bag !! k.
Proof.
  intros Hk. destruct (bag !! k'); [done|]. by rewrite lookup_insert_ne.
Qed.

Lemma handle_role_settles entry first second v f' s' x :
  new_value x = Some v ->
  _handle_role first second entry v = OK (f', s') ->
  resolved_roles entry (Some x) = getattr s' "roles" /\
  is_Some (s' !! "roles") /\
  f' !! "roles" = match first !! "roles" with
                  | Some w => Some w
                  | None => Some (VList [])
                  end.
Proof.
  intros Hv Hh. apply handle_role_OK in Hh as (l & d & Hl & Hd & -> & ->).
  unfold getattr. rewrite lookup_insert_eq. simpl.
  rewrite Hv. simpl. rewrite Hl. simpl. rewrite Hd. simpl.
  split; [done|]. split; [done|].
  destruct (first !! "roles") eqn:E; [done|]. by rewrite lookup_insert_eq.
Qed.

Lemma loop_settles_roles entry l s :
  (forall r, r ∈ l -> key r <> "roles") ->
  (forall r, r ∈ l -> key r <> "__dict__") ->
  loop entry (∅, ∅) l = OK s ->
  roles_settled entry l s.
Proof.
  revert s. induction l as [|x l IH] using rev_ind; intros s Hk Hnd Hl.
  { injection Hl as <-. unfold roles_settled. simpl. by rewrite lookup_empty. }
  apply loop_snoc_OK in Hl as ([b a] & Hl & Hs).
  assert (key x <> "roles") as Hx by (apply Hk, elem_of_app; right; by left).
  assert (key x <> "__dict__") as Hxd
    by (apply Hnd, elem_of_app; right; by left).
  apply IH in Hl; [|intros r Hr; apply Hk, elem_of_app; by left
                   |intros r Hr; apply Hnd, elem_of_app; by left].
  destruct s as [b' a']. unfold roles_settled in *.
  rewrite !last_with_key_snoc. simpl in *.
  apply step_OK in Hs
    as [(v & Hkx & Hv & Hs)|[(v & Hkx & Hv & Hs)|[(v & Hkx & Hv & Hs)|
       [(v & Hkx & Hv & Hs)|(Hc & Hs)]]]].
  - rewrite Hkx. simpl.
    destruct (handle_role_settles _ _ _ _ _ _ _ Hv Hs) as (Ha & [va Hva] & Hb).
    unfold getattr in Ha. rewrite Hva in Ha.
    destruct (last_with_key "$add" l), (last_with_key "$remove" l);
      [destruct Hl as (vb & ? & Hvb & ? & ? & ?)..|destruct Hl as [Hvb ?]];
      rewrite Hvb in Hb; eauto 10.
  - rewrite Hkx. simpl.
    destruct (handle_role_settles _ _ _ _ _ _ _ Hv Hs) as (Hb & [vb Hvb] & Ha).
    unfold getattr in Hb. rewrite Hvb in Hb.
    destruct (last_with_key "$add" l), (last_with_key "$remove" l);
      [destruct Hl as (? & va & ? & ? & Hva & ?)..|destruct Hl as [? Hva]];
      rewrite Hva in Ha; eauto 10.
  - apply handle_trigger_metadata_OK in Hs as [-> ->].
    rewrite lookup_placeholder_ne, lookup_insert_ne by done.
    rewrite !decide_False; [done|..];
      by (apply (mem_neq _ add_metadata_keys)).
  - apply handle_trigger_metadata_OK in Hs as [-> ->].
    rewrite lookup_placeholder_ne, lookup_insert_ne by done.
    rewrite !decide_False; [done|..];
      by (apply (mem_neq _ remove_metadata_keys)).
  - apply generic_stores in Hs as (? & ? & _ & _ & -> & ->); [|done].
    assert (resolved_name (key x) <> "roles") as Hn
      by (intros Hn; by apply resolved_name_roles in Hn).
    rewrite !lookup_insert_ne by done.
    rewrite !decide_False; [done|..]; by intros Hkx; rewrite Hkx in Hc.
Qed.

Lemma alias_lookup_ne x y s s' k :
  alias x y s = OK s' -> y <> k ->
  fst s' !! k = fst s !! k /\ snd s' !! k = snd s !! k.
Proof.
  destruct s as [b a]. unfold alias. intros Ha Hy.
  destruct (a !! x); [destruct (b !! x)|]; simplify_eq/=;
    by rewrite ?lookup_insert_ne.
Qed.

Lemma step_roles_present entry s r s' :
  key r = "$add" \/ key r = "$remove" ->
  step entry s r = OK s' ->
  is_Some (fst s' !! "roles") /\ is_Some (snd s' !! "roles").
Proof.
  destruct s as [b a], s' as [b' a']. intros Hk Hs.
  apply step_OK in Hs
    as [(v & _ & Hv & Hs)|[(v & _ & Hv & Hs)|[(v & Hm & _ & _)|
       [(v & Hm & _ & _)|(Hc & _)]]]]; simpl.
  - destruct (handle_role_settles _ _ _ _ _ _ _ Hv Hs) as (_ & Ha & Hb).
    split; [|done]. rewrite Hb. by destruct (b !! "roles").
  - destruct (handle_role_settles _ _ _ _ _ _ _ Hv Hs) as (_ & Hb & Ha).
    split; [done|]. rewrite Ha. by destruct (a !! "roles").
  - by destruct Hk as [Hk|Hk]; rewrite Hk in Hm.
  - by destruct Hk as [Hk|Hk]; rewrite Hk in Hm.
  - by destruct Hk as [Hk|Hk]; rewrite Hk in Hc.
Qed.

Lemma loop_roles_present entry l s s' r :
  r ∈ l -> key r = "$add" \/ key r = "$remove" ->
  (forall r', r' ∈ l -> key r' <> "__dict__") ->
  loop entry s l = OK s' ->
  is_Some (fst s' !! "roles") /\ is_Some (snd s' !! "roles").
Proof.
  intros Hr Hk. revert s.
  induction l as [|x l IH]; intros s Hnd Hl; [by apply elem_of_nil in Hr|].
  simpl in Hl. bind_inv Hl.
  assert (forall r', r' ∈ l -> key r' <> "__dict__") as Hnd'
    by (intros r' Hr'; apply Hnd; by right).
  apply elem_of_cons in Hr as [<-|Hr]; [|by eapply IH].
  apply (step_roles_present _ _ _ _ Hk) in E as [Hb Ha].
  apply (loop_keeps _ _ _ _ "roles") in Hl as [Hb' Ha']; auto.
Qed.

Lemma last_with_key_elem_of k l :
  is_Some (last_with_key k l) -> exists r, r ∈ l /\ key r = k.
Proof.
  intros [r Hr]. exists r. unfold last_with_key in Hr.
  apply last_Some_elem_of, list_elem_of_filter in Hr as [? ?]. done.
Qed.

(** C5, as amended: when the change list has a [$add] record or a
    [$remove] record and no record keyed [__dict__] (which would replace the
    bags the handlers wrote to), both bags of the decoded result have
    [roles]; and, no record of the list being for a raw field called [roles]
    either (which the loop would store over them), the [roles] of the after
    bag is the resolved list of the [$add] record and the [roles] of the
    before bag the resolved list of the [$remove] record, each stub resolved
    to the cached role or to an opaque reference carrying the stub's name, a
    record type that did not appear leaving the empty list on its bag. *)
Theorem role_lists (entry : AuditLogEntry) (data : list AuditLogChangePayload)
  (b a : AuditLogDiff) :
  AuditLogChanges_init entry data = OK (b, a) ->
  is_Some (last_with_key "$add" data)
  \/ is_Some (last_with_key "$remove" data) ->
  (forall r, r ∈ data -> key r <> "__dict__") ->
  is_Some (a !! "roles") /\ is_Some (b !! "roles") /\
  ((forall r, r ∈ data -> key r <> "roles") ->
   getattr a "roles" = resolved_roles entry (last_with_key "$add" data) /\
   getattr b "roles" = resolved_roles entry (last_with_key "$remove" data)).
Proof.
  intros Hd Hsome Hnd. unfold AuditLogChanges_init in Hd.
  assert (forall r, r ∈ sorted data -> key r <> "__dict__") as Hnd'
    by (intros r Hr; by apply Hnd, elem_of_sorted).
  bind_inv Hd. bind_inv Hd.
  pose proof (alias_lookup_ne _ _ _ _ "roles" E0) as [Hb0 Ha0]; [done|].
  pose proof (alias_lookup_ne _ _ _ _ "roles" Hd) as [Hb1 Ha1]; [done|].
  simpl in *.
  assert (exists r, r ∈ sorted data /\ (key r = "$add" \/ key r = "$remove"))
    as (r & Hr & Hkr).
  { destruct Hsome as [Hs|Hs]; apply last_with_key_elem_of in Hs as (r & ? & ?);
      exists r; rewrite elem_of_sorted; auto. }
  destruct (loop_roles_present _ _ _ _ _ Hr Hkr Hnd' E) as [Hpb Hpa].
  rewrite Hb1, Hb0, Ha1, Ha0. split; [done|]. split; [done|].
  intros Hk.
  apply loop_settles_roles in E;
    [|intros r' Hr'; by apply Hk, elem_of_sorted|done].
  unfold roles_settled in E. rewrite !last_with_key_sorted in E.
  unfold getattr. rewrite Hb1, Hb0, Ha1, Ha0.
  destruct (last_with_key "$add" data), (last_with_key "$remove" data);
    [destruct E as (vb & va & -> & -> & -> & ->); eauto..|].
  destruct Hsome as [[? ?]|[? ?]]; done.
Qed.

(** ** Transformed fields *)



Lemma locate_other nm bag v :
  String.eqb nm "location" = false -> locate nm bag v = v.
Proof. unfold locate. by intros ->. Qed.




(** ** Cached properties *)

Arguments changes : simpl never.
Arguments before : simpl never.
Arguments after : simpl never.
Arguments target : simpl never.
Arguments AuditLogChanges_init : simpl never.

(** The first access to [changes]. *)
Lemma changes_first e h data b a :
  changes_slot e = None -> _changes e = Some data ->
  AuditLogChanges_init e data = OK (b, a) ->
  let lb := length h in
  changes (e, h)
  = (OK (S (S lb)),
     (with_changes e (S (S lb)),
      (h ++ [ODiff b; ODiff a; OChanges lb (S lb)])%list)).
Proof.
  intros Hs Hc Hd. unfold changes, alloc. rewrite Hs, Hc, Hd.
  rewrite !length_app. simpl. rewrite <- !app_assoc. simpl.
  by rewrite !Nat.add_1_r.
Qed.

Lemma changes_first_inv e h c w' :
  changes_slot e = None -> changes (e, h) = (OK c, w') ->
  exists data b a,
    _changes e = Some data /\ AuditLogChanges_init e data = OK (b, a) /\
    c = S (S (length h)) /\
    w' = (with_changes e c,
          (h ++ [ODiff b; ODiff a; OChanges (length h) (S (length h))])%list).
Proof.
  intros Hs Hc.
  destruct (_changes e) as [data|] eqn:Hraw;
    [|unfold changes in Hc; by rewrite Hs, Hraw in Hc].
  destruct (AuditLogChanges_init e data) as [[b a]|x] eqn:Hd;
    [|unfold changes in Hc; by rewrite Hs, Hraw, Hd in Hc].
  rewrite (changes_first e h data b a Hs Hraw Hd) in Hc.
  injection Hc as <- <-. eauto 10.
Qed.

Lemma changes_again e h c :
  changes_slot e = Some c -> changes (e, h) = (OK c, (e, h)).
Proof. unfold changes. by intros ->. Qed.

Lemma heap_after_first (h : list object) b a :
  let h' := (h ++ [ODiff b; ODiff a; OChanges (length h) (S (length h))])%list in
  h' !! length h = Some (ODiff b) /\
  h' !! S (length h) = Some (ODiff a) /\
  h' !! S (S (length h)) = Some (OChanges (length h) (S (length h))).
Proof.
  simpl. repeat split.
  - rewrite lookup_app_r by lia. by rewrite Nat.sub_diag.
  - rewrite lookup_app_r by lia.
    by replace (S (length h) - length h)%nat with 1%nat by lia.
  - rewrite lookup_app_r by lia.
    by replace (S (S (length h)) - length h)%nat with 2%nat by lia.
Qed.

(** Once [changes] is cached, no read touches the slot, the raw list or the
    heap. *)
Lemma before_cached c h w : cached c h w -> cached c h (snd (before w)).
Proof.
  destruct w as [e h0]. intros (Hs & Hraw & Hh). simpl in *. subst h0.
  unfold before. simpl. destruct (before_slot e); [done|].
  rewrite (changes_again _ _ _ Hs).
  destruct (h !! c) as [[|b a]|]; done.
Qed.

Lemma after_cached c h w : cached c h w -> cached c h (snd (after w)).
Proof.
  destruct w as [e h0]. intros (Hs & Hraw & Hh). simpl in *. subst h0.
  unfold after. simpl. destruct (after_slot e); [done|].
  rewrite (changes_again _ _ _ Hs).
  destruct (h !! c) as [[|b a]|]; done.
Qed.

Lemma pure_snd {A} (r : result A) w : snd (pure r w) = w.
Proof. done. Qed.

Lemma converter_keeps (P : world -> Prop) t convert target_id w :
  (forall w, P w -> P (snd (before w))) ->
  (forall w, P w -> P (snd (after w))) ->
  converter t = Some convert -> P w -> P (snd (convert target_id w)).
Proof.
  intros Hb Ha Hc Hw. destruct t as [t|]; [|done]. unfold converter in Hc.
  apply assoc_elem_of in Hc.
  repeat (apply elem_of_cons in Hc as [Hc|Hc];
          [injection Hc as _ ->; try done|]);
    [|by apply elem_of_nil in Hc].
  unfold _convert_target_invite.
  destruct (action_is (action (fst w)) "invite_delete").
  - specialize (Hb _ Hw). by destruct (before w) as [[l|x] w'].
  - specialize (Ha _ Hw). by destruct (after w) as [[l|x] w'].
Qed.

Lemma target_keeps (P : world -> Prop) w :
  (forall w, P w -> P (snd (before w))) ->
  (forall w, P w -> P (snd (after w))) ->
  (forall e h t, P (e, h) -> P (with_target e t, h)) ->
  P w -> P (snd (target w)).
Proof.
  intros Hb Ha Ht Hw. unfold target.
  destruct (target_slot (fst w)); [done|].
  destruct (converter (target_type (action (fst w)))) as [convert|] eqn:Hc.
  - pose proof (converter_keeps P _ _ (_target_id (fst w)) w Hb Ha Hc Hw)
      as Hw'.
    destruct (convert (_target_id (fst w)) w) as [[t|x] [e h]];
      simpl in *; auto.
  - unfold pure. destruct (Object (_target_id (fst w))); [|done].
    destruct w. simpl. auto.
Qed.

Lemma read_cached c h x w : cached c h w -> cached c h (read x w).
Proof.
  intros Hw. destruct x; simpl.
  - destruct w as [e h0]. destruct Hw as (Hs & ? & ?).
    by rewrite (changes_again _ _ _ Hs).
  - by apply before_cached.
  - by apply after_cached.
  - apply target_keeps; auto using before_cached, after_cached.
Qed.

Lemma reads_cached c h xs w : cached c h w -> cached c h (reads xs w).
Proof.
  revert w. induction xs as [|x xs IH]; intros w Hw; [done|].
  simpl. apply IH. by apply read_cached.
Qed.

(** C8: the first access to [changes] (the slot is still empty) that
    returns has built the before/after pair from the raw change list and
    stored it on the heap, and has deleted the raw list; whatever is read
    from the entry afterwards, [changes] returns the same object, the raw
    list stays deleted and the heap, so the object itself, is unchanged. *)
Theorem changes_memoised (w : world) (c : nat) (w' : world) :
  changes_slot (fst w) = None ->
  changes w = (OK c, w') ->
  (exists data b a lb la,
     _changes (fst w) = Some data /\
     AuditLogChanges_init (fst w) data = OK (b, a) /\
     snd w' !! c = Some (OChanges lb la) /\
     snd w' !! lb = Some (ODiff b) /\ snd w' !! la = Some (ODiff a)) /\
  _changes (fst w') = None /\
  forall xs,
    changes (reads xs w') = (OK c, reads xs w') /\
    _changes (fst (reads xs w')) = None /\
    snd (reads xs w') = snd w'.
Proof.
  destruct w as [e h]. simpl. intros Hs Hc.
  apply changes_first_inv in Hc as (data & b & a & Hraw & Hd & -> & ->);
    [|done].
  destruct (heap_after_first h b a) as (Hb & Ha & Hch). simpl.
  split; [eauto 10|]. split; [done|].
  intros xs.
  match goal with
  | |- context [reads xs ?w] =>
      assert (cached (S (S (length h))) (snd w) (reads xs w)) as Hx
        by (by apply reads_cached)
  end.
  destruct (reads xs _) as [e' h']. destruct Hx as (Hs' & Hraw' & Hh').
  simpl in *. by rewrite (changes_again _ _ _ Hs').
Qed.

(** Reads keep the slots and the heap in agreement. *)
Lemma changes_linked w : linked w -> linked (snd (changes w)).
Proof.
  destruct w as [e h]. unfold linked at 1. simpl.
  destruct (changes_slot e) as [c|] eqn:Hs.
  - intros Hl. rewrite (changes_again _ _ _ Hs). unfold linked. simpl.
    by rewrite Hs.
  - intros [Hb Ha].
    destruct (changes (e, h)) as [[c|x] w'] eqn:Hc.
    + apply changes_first_inv in Hc as (data & b & a & _ & _ & -> & ->);
        [|done].
      destruct (heap_after_first h b a) as (_ & _ & Hch).
      unfold linked. simpl. eauto 10.
    + unfold changes in Hc. rewrite Hs in Hc.
      destruct (_changes e); [|by injection Hc as _ <-; unfold linked; simpl;
                                   rewrite Hs].
      destruct (AuditLogChanges_init e l) as [[??]|]; [done|].
      injection Hc as _ <-. unfold linked. simpl. by rewrite Hs.
Qed.

Lemma before_linked w : linked w -> linked (snd (before w)).
Proof.
  intros Hl. unfold before.
  destruct (before_slot (fst w)) eqn:Hb; [done|].
  pose proof (changes_linked w Hl) as Hl'.
  destruct (changes w) as [[c|x] [e h]] eqn:Hc; [|done]. simpl in *.
  assert (changes_slot e = Some c) as Hs.
  { destruct w as [e0 h0]. simpl in *.
    destruct (changes_slot e0) as [c0|] eqn:Hs0.
    - rewrite (changes_again _ _ _ Hs0) in Hc. by injection Hc as <- <- <-.
    - apply changes_first_inv in Hc as (? & ? & ? & _ & _ & _ & Hw); [|done].
      by injection Hw as -> _. }
  unfold linked in Hl'. simpl in Hl'. rewrite Hs in Hl'.
  destruct Hl' as (b & a & Hh & _ & Ha).
  rewrite Hh. unfold linked. simpl. rewrite Hs. eauto 10.
Qed.

Lemma after_linked w : linked w -> linked (snd (after w)).
Proof.
  intros Hl. unfold after.
  destruct (after_slot (fst w)) eqn:Hb; [done|].
  pose proof (changes_linked w Hl) as Hl'.
  destruct (changes w) as [[c|x] [e h]] eqn:Hc; [|done]. simpl in *.
  assert (changes_slot e = Some c) as Hs.
  { destruct w as [e0 h0]. simpl in *.
    destruct (changes_slot e0) as [c0|] eqn:Hs0.
    - rewrite (changes_again _ _ _ Hs0) in Hc. by injection Hc as <- <- <-.
    - apply changes_first_inv in Hc as (? & ? & ? & _ & _ & _ & Hw); [|done].
      by injection Hw as -> _. }
  unfold linked in Hl'. simpl in Hl'. rewrite Hs in Hl'.
  destruct Hl' as (b & a & Hh & Hbf & _).
  rewrite Hh. unfold linked. simpl. rewrite Hs. eauto 10.
Qed.

Lemma read_linked x w : linked w -> linked (read x w).
Proof.
  intros Hw. destruct x; simpl.
  - by apply changes_linked.
  - by apply before_linked.
  - by apply after_linked.
  - apply target_keeps; auto using before_linked, after_linked.
Qed.

Lemma reads_linked xs w : linked w -> linked (reads xs w).
Proof.
  revert w. induction xs as [|x xs IH]; intros w Hw; [done|].
  simpl. apply IH. by apply read_linked.
Qed.

Lemma fresh_linked e h : fresh e -> linked (e, h).
Proof. intros (Hc & Hb & Ha & _). unfold linked. simpl. by rewrite Hc. Qed.

(** What [before] and [after] return in a world whose slots agree with the
    heap, given what [changes] returns there. *)
Lemma linked_fields w c wc :
  linked w -> changes w = (OK c, wc) ->
  exists b a,
    snd wc !! c = Some (OChanges b a) /\
    fst (before w) = OK b /\ fst (after w) = OK a.
Proof.
  destruct w as [e h]. intros Hl Hc. unfold linked in Hl. simpl in Hl.
  destruct (changes_slot e) as [c0|] eqn:Hs.
  - rewrite (changes_again _ _ _ Hs) in Hc. injection Hc as <- <-.
    destruct Hl as (b & a & Hh & Hb & Ha). exists b, a. simpl.
    split; [done|]. unfold before, after. simpl.
    rewrite (changes_again _ _ _ Hs), Hh.
    destruct Hb as [-> | ->], Ha as [-> | ->]; done.
  - destruct Hl as [Hb Ha].
    pose proof Hc as Hc'.
    apply changes_first_inv in Hc' as (data & b & a & _ & _ & -> & ->);
      [|done].
    destruct (heap_after_first h b a) as (_ & _ & Hch).
    exists (length h), (S (length h)). simpl.
    split; [done|]. unfold before, after. simpl.
    by rewrite Hb, Ha, Hc, Hch.
Qed.

(** The constructor leaves every slot empty and keeps the raw list. *)
Lemma from_data_fresh users data g e :
  _from_data users data g = OK e ->
  fresh e /\ _changes e = Some (default [] (p_changes data)).
Proof.
  unfold _from_data. intros Hf.
  bind_inv Hf. bind_inv Hf. bind_inv Hf. bind_inv Hf.
  injection Hf as <-. by repeat split.
Qed.

(** C9: on an entry as constructed, after any sequence of reads of its
    properties, what [before] and [after] return are the addresses held by
    the object [changes] returns; and [before] or [after] returns exactly
    when [changes] does. *)
Theorem before_after_are_the_changes_fields (e : AuditLogEntry)
  (h : list object) (xs : list property) :
  fresh e ->
  let w := reads xs (e, h) in
  (forall c wc, changes w = (OK c, wc) ->
     exists b a,
       snd wc !! c = Some (OChanges b a) /\
       fst (before w) = OK b /\ fst (after w) = OK a) /\
  (forall b, fst (before w) = OK b -> exists c, fst (changes w) = OK c) /\
  (forall a, fst (after w) = OK a -> exists c, fst (changes w) = OK c).
Proof.
  intros Hf w.
  assert (linked w) as Hl by (by apply reads_linked, fresh_linked).
  split; [intros c wc; by apply linked_fields|].
  clearbody w. destruct w as [e' h'].
  unfold linked in Hl. simpl in Hl.
  split; intros l Hr.
  - unfold before in Hr. simpl in Hr.
    destruct (changes_slot e') as [c|] eqn:Hs.
    { rewrite (changes_again _ _ _ Hs). eauto. }
    destruct Hl as [Hb _]. rewrite Hb in Hr.
    destruct (changes (e', h')) as [[c|x] [e2 h2]]; [eauto|done].
  - unfold after in Hr. simpl in Hr.
    destruct (changes_slot e') as [c|] eqn:Hs.
    { rewrite (changes_again _ _ _ Hs). eauto. }
    destruct Hl as [_ Ha]. rewrite Ha in Hr.
    destruct (changes (e', h')) as [[c|x] [e2 h2]]; [eauto|done].
Qed.

(** ** The invite target *)

Lemma before_first e h data b a :
  changes_slot e = None -> before_slot e = None -> _changes e = Some data ->
  AuditLogChanges_init e data = OK (b, a) ->
  exists w', before (e, h) = (OK (length h), w') /\
             attrs_at (snd w') (length h) = OK b.
Proof.
  intros Hs Hb Hraw Hd. unfold before. simpl. rewrite Hb.
  rewrite (changes_first e h data b a Hs Hraw Hd).
  destruct (heap_after_first h b a) as (Hlb & _ & Hch).
  cbv zeta in Hlb, Hch. rewrite Hch.
  eexists. split; [done|]. unfold attrs_at. simpl. by rewrite Hlb.
Qed.

Lemma after_first e h data b a :
  changes_slot e = None -> after_slot e = None -> _changes e = Some data ->
  AuditLogChanges_init e data = OK (b, a) ->
  exists w', after (e, h) = (OK (S (length h)), w') /\
             attrs_at (snd w') (S (length h)) = OK a.
Proof.
  intros Hs Ha Hraw Hd. unfold after. simpl. rewrite Ha.
  rewrite (changes_first e h data b a Hs Hraw Hd).
  destruct (heap_after_first h b a) as (_ & Hla & Hch).
  cbv zeta in Hla, Hch. rewrite Hch.
  eexists. split; [done|]. unfold attrs_at. simpl. by rewrite Hla.
Qed.

(** C7: on an entry whose action has the invite target type, [target] is
    the invite assembled from the before diff when the action is
    [invite_delete] and from the after diff otherwise: when that diff has
    [max_age], [max_uses], [code], [temporary], [uses] and [channel], the
    access returns the invite built from them, with the diff's [inviter]
    attached if the diff has one and nothing raised if it has none. *)
Theorem invite_target (e : AuditLogEntry) (h : list object)
  (data : list AuditLogChangePayload) (b a : AuditLogDiff) :
  fresh e -> _changes e = Some data ->
  target_type (action e) = Some "invite" ->
  AuditLogChanges_init e data = OK (b, a) ->
  let changeset := if action_is (action e) "invite_delete" then b else a in
  fst (target (e, h)) = invite_of changeset /\
  forall max_age max_uses code temporary uses channel,
    changeset !! "max_age" = Some max_age ->
    changeset !! "max_uses" = Some max_uses ->
    changeset !! "code" = Some code ->
    changeset !! "temporary" = Some temporary ->
    changeset !! "uses" = Some uses ->
    changeset !! "channel" = Some channel ->
    fst (target (e, h))
    = OK (VInvite [("max_age", max_age); ("max_uses", max_uses);
                   ("code", code); ("temporary", temporary); ("uses", uses)]
                  channel (changeset !! "inviter")).
Proof.
  intros (Hs & Hb & Ha & Ht) Hraw Htt Hd changeset.
  assert (fst (target (e, h)) = invite_of changeset) as Htarget.
  { unfold target. simpl. rewrite Ht, Htt.
    change (converter (Some "invite")) with (Some _convert_target_invite).
    unfold _convert_target_invite, changeset. simpl.
    destruct (action_is (action e) "invite_delete").
    - destruct (before_first e h data b a Hs Hb Hraw Hd) as (w' & -> & ->).
      simpl. destruct (invite_of b); by destruct w'.
    - destruct (after_first e h data b a Hs Ha Hraw Hd) as (w' & -> & ->).
      simpl. destruct (invite_of a); by destruct w'. }
  split; [done|].
  intros ? ? ? ? ? ? H1 H2 H3 H4 H5 H6. rewrite Htarget.
  unfold invite_of, getattr. by rewrite H1, H2, H3, H4, H5, H6.
Qed.

(** ** The extra of an overwrite action *)

Lemma action_is_not a p member :
  startswith (name a) p = true -> startswith member p = false ->
  action_is a member = false.
Proof.
  intros Ha Hm. unfold action_is.
  destruct (String.eqb_spec (name a) member) as [Heq|_];
    [|by rewrite andb_false_r].
  rewrite Heq in Ha. congruence.
Qed.

Lemma extra_of_overwrite g users a d i z :
  startswith (name a) "overwrite_" = true ->
  endswith (name a) "pin" = false ->
  assoc "id" d = Some i -> int i = OK z ->
  eq_str (dict_get d "type") "1" = false ->
  eq_str (dict_get d "type") "0" = false ->
  extra_of g users a (VDict d) = OK (VDict d).
Proof.
  intros Hs Hp Hid Hz H1 H0. unfold extra_of.
  rewrite !(action_is_not a "overwrite_") by done.
  simpl. rewrite Hp, Hs, Hid. simpl. rewrite Hz. simpl.
  by rewrite H1, H0.
Qed.

(** C10: an entry whose action name starts with [overwrite_] (and is not a
    pin action) and whose options carry an id but a [type] that is neither
    the string "1" nor the string "0" is decoded, and its [extra] is the raw
    options mapping, unchanged. *)
Theorem overwrite_extra_left_raw (users : gmap Z entity)
  (data : AuditLogEntryPayload) (g : Guild) (d : list (string * value))
  (i : value) (z : Z) :
  let a := audit_log_action (p_action_type data) in
  p_options data = Some (VDict d) ->
  startswith (name a) "overwrite_" = true ->
  endswith (name a) "pin" = false ->
  assoc "id" d = Some i -> int i = OK z ->
  eq_str (dict_get d "type") "1" = false ->
  eq_str (dict_get d "type") "0" = false ->
  returns (int (p_id data)) ->
  returns (_get_as_snowflake (p_user_id data)) ->
  returns (_get_as_snowflake (p_target_id data)) ->
  exists e, _from_data users data g = OK e /\ extra e = VDict d.
Proof.
  intros a Ho Hs Hp Hid Hz H1 H0 [n Hn] [u Hu] [t Ht].
  assert ((if is_enum_member a && truthy (VDict d)
           then extra_of g users a (VDict d) else OK (VDict d))
          = OK (VDict d)) as Hx.
  { destruct (is_enum_member a && truthy (VDict d)); [|done].
    by eapply extra_of_overwrite. }
  unfold _from_data. fold a. rewrite Hn, Ho, Hu, Ht.
  cbn [from_option_value mbind result_bind]. rewrite Hx.
  simpl. eauto.
Qed.

(** ** The keys of the two bags *)

Arguments step : simpl never.

Lemma dom_placeholder (bag : AuditLogDiff) k v :
  dom (match bag !! k with
       | Some _ => bag
       | None => <[k := v]> bag
       end) = {[ k ]} ∪ dom bag.
Proof.
  destruct (bag !! k) eqn:E; [|by rewrite dom_insert_L].
  symmetry. apply subseteq_union_1_L, singleton_subseteq_l, elem_of_dom.
  eauto.
Qed.

(** Every step writes one and the same name into both bags, unless its
    record is keyed [__dict__]. *)
Lemma step_dom entry b a r b' a' :
  key r <> "__dict__" ->
  step entry (b, a) r = OK (b', a') ->
  exists k, dom b' = {[ k ]} ∪ dom b /\ dom a' = {[ k ]} ∪ dom a.
Proof.
  intros Hk Hs.
  apply step_OK in Hs
    as [(v & _ & _ & Hs)|[(v & _ & _ & Hs)|[(v & _ & _ & Hs)|
       [(v & _ & _ & Hs)|(_ & Hs)]]]].
  - apply handle_role_OK in Hs as (? & ? & _ & _ & -> & ->).
    exists "roles". by rewrite dom_placeholder, dom_insert_L.
  - apply handle_role_OK in Hs as (? & ? & _ & _ & -> & ->).
    exists "roles". by rewrite dom_placeholder, dom_insert_L.
  - apply handle_trigger_metadata_OK in Hs as [-> ->].
    exists "trigger_metadata". by rewrite dom_placeholder, dom_insert_L.
  - apply handle_trigger_metadata_OK in Hs as [-> ->].
    exists "trigger_metadata". by rewrite dom_placeholder, dom_insert_L.
  - apply generic_stores in Hs as (? & ? & _ & _ & -> & ->); [|done].
    exists (resolved_name (key r)). by rewrite !dom_insert_L.
Qed.

Lemma loop_dom entry l s s' :
  (forall r, r ∈ l -> key r <> "__dict__") ->
  loop entry s l = OK s' -> dom (fst s) = dom (snd s) ->
  dom (fst s') = dom (snd s').
Proof.
  revert s. induction l as [|r l IH]; simpl; intros s Hnd Hl Hd.
  - by injection Hl as <-.
  - bind_inv Hl.
    apply (IH v); [intros r' Hr'; apply Hnd; by right|done|].
    destruct s as [b a], v as [b' a'].
    apply step_dom in E as (k & Hb & Ha); [|apply Hnd; by left].
    simpl in *. by rewrite Hb, Ha, Hd.
Qed.

(** With the same keys on both sides, the alias pass cannot fail. *)
Lemma alias_dom x y s :
  dom (fst s) = dom (snd s) ->
  exists s', alias x y s = OK s' /\ dom (fst s') = dom (snd s').
Proof.
  destruct s as [b a]. simpl. intros Hd. unfold alias.
  destruct (a !! x) as [va|] eqn:Ha; [|eauto].
  assert (x ∈ dom b) as Hx by (rewrite Hd; apply elem_of_dom; eauto).
  apply elem_of_dom in Hx as [vb ->].
  eexists. split; [done|]. simpl. by rewrite !dom_insert_L, Hd.
Qed.

(** When no record of the list is keyed [__dict__] (such a record replaces
    each bag by a dictionary of its own), the two bags of a decoded result
    have the same attribute names, hence the same length. *)
Theorem decoded_keys_agree (entry : AuditLogEntry)
  (data : list AuditLogChangePayload) (b a : AuditLogDiff) :
  (forall r, r ∈ data -> key r <> "__dict__") ->
  AuditLogChanges_init entry data = OK (b, a) ->
  dom b = dom a /\ AuditLogDiff_len b = AuditLogDiff_len a.
Proof.
  intros Hnd Hd. unfold AuditLogChanges_init in Hd. bind_inv Hd. bind_inv Hd.
  apply loop_dom in E;
    [|intros r Hr; by apply Hnd, elem_of_sorted|done].
  destruct (alias_dom "colour" "color" v E) as (s1 & Hs1 & Hd1).
  assert (v0 = s1) as -> by congruence.
  destruct (alias_dom "expire_behavior" "expire_behaviour" s1 Hd1)
    as (s2 & Hs2 & Hd2).
  assert (s2 = (b, a)) as -> by congruence. simpl in *.
  split; [done|]. unfold AuditLogDiff_len. by rewrite <- !size_dom, Hd2.
Qed.

(** ** When the decoder returns *)

Lemma handle_role_returns first second first' second' entry v :
  returns (_handle_role first second entry v) ->
  returns (_handle_role first' second' entry v).
Proof.
  intros [[f s] Hr]. apply handle_role_OK in Hr as (l & d & Hl & Hd & _ & _).
  eexists (_, _). apply handle_role_OK. eauto 10.
Qed.

Lemma fmap_returns {A B} (f : A -> B) (m : result A) :
  returns (f <$> m) <-> returns m.
Proof.
  destruct m; simpl; split; intros [x Hx]; try done; by eexists.
Qed.

Lemma stored_returns_any nm (b b' : AuditLogDiff) v :
  returns (setattr b nm (locate nm b v)) ->
  returns (setattr b' nm (locate nm b' v)).
Proof.
  destruct (reserved nm) eqn:Hr.
  - assert (String.eqb nm "location" = false) as Hl.
    { unfold reserved in Hr. apply mem_elem_of in Hr.
      repeat (apply elem_of_cons in Hr as [->|Hr]; [done|]).
      by apply elem_of_nil in Hr. }
    rewrite !locate_other by done. apply setattr_returns_any.
  - rewrite !setattr_plain by done. intros _. by eexists.
Qed.

(** Whether a record can be processed does not depend on the bags. *)
Lemma step_returns_any entry s s' r :
  returns (step entry s r) -> returns (step entry s' r).
Proof.
  destruct s as [b a], s' as [b' a']. unfold step.
  destruct (String.eqb (key r) "$add").
  { destruct (new_value r); simpl; [apply handle_role_returns|done]. }
  destruct (String.eqb (key r) "$remove").
  { destruct (new_value r); simpl; [|done].
    rewrite !fmap_returns. apply handle_role_returns. }
  destruct (mem (key r) add_metadata_keys).
  { destruct (new_value r); simpl; [|done]. intros _. by eexists. }
  destruct (mem (key r) remove_metadata_keys).
  { destruct (new_value r); simpl; [|done]. intros _. by eexists. }
  intros [[b1 a1] Hg].
  apply generic_OK in Hg as (vb & va & Hvb & Hva & Hb & Ha).
  destruct (stored_returns_any (resolved_name (key r)) b b' vb)
    as [b2 Hb2]; [by eexists|].
  destruct (stored_returns_any (resolved_name (key r)) a a' va)
    as [a2 Ha2]; [by eexists|].
  exists (b2, a2). apply generic_OK. eauto 10.
Qed.

Lemma loop_returns entry l s :
  returns (loop entry s l) <->
  forall r, r ∈ l -> returns (step entry (∅, ∅) r).
Proof.
  revert s. induction l as [|x l IH]; intros s; simpl.
  - split; [intros _ r Hr; by apply elem_of_nil in Hr|by eexists].
  - split.
    + intros [s' Hl]. bind_inv Hl. intros r Hr.
      apply elem_of_cons in Hr as [->|Hr].
      * apply (step_returns_any entry s). by eexists.
      * eapply IH; [by eexists|done].
    + intros Hall.
      destruct (step_returns_any entry (∅, ∅) s x) as [s1 Hs1];
        [apply Hall; by left|].
      rewrite Hs1. simpl. apply IH. intros r Hr. apply Hall. by right.
Qed.

(** When the decoder returns, every record of the list can be processed on
    its own. *)
Lemma init_returns_each (entry : AuditLogEntry)
  (data : list AuditLogChangePayload) :
  returns (AuditLogChanges_init entry data) ->
  forall r, r ∈ data -> returns (step entry (∅, ∅) r).
Proof.
  unfold AuditLogChanges_init.
  intros [s Hs]. bind_inv Hs. intros r Hr.
  apply (proj1 (loop_returns entry (sorted data) (∅, ∅))); [by eexists|].
  by apply elem_of_sorted.
Qed.

Lemma init_returns_iff (entry : AuditLogEntry)
  (data : list AuditLogChangePayload) :
  (forall r, r ∈ data -> key r <> "__dict__") ->
  returns (AuditLogChanges_init entry data) <->
  forall r, r ∈ data -> returns (step entry (∅, ∅) r).
Proof.
  intros Hnd. split; [apply init_returns_each|].
  unfold AuditLogChanges_init. intros Hall.
  destruct (proj2 (loop_returns entry (sorted data) (∅, ∅))) as [s Hs].
  { intros r Hr. apply Hall. by apply elem_of_sorted. }
  rewrite Hs. simpl.
  assert (dom (fst s) = dom (snd s)) as Hd.
  { eapply loop_dom; [|exact Hs|done].
    intros r Hr. by apply Hnd, elem_of_sorted. }
  destruct (alias_dom "colour" "color" s Hd) as (s1 & -> & Hd1). simpl.
  destruct (alias_dom "expire_behavior" "expire_behaviour" s1 Hd1)
    as (s2 & -> & _).
  by eexists.
Qed.

(** When no record of the list is keyed [__dict__], the decoder returns
    exactly when every record of the list can be processed on its own: no
    record makes another one fail, the order of the list does not matter,
    and the alias pass does not raise. *)
Theorem decoder_returns_iff (entry : AuditLogEntry)
  (data : list AuditLogChangePayload) :
  (forall r, r ∈ data -> key r <> "__dict__") ->
  returns (AuditLogChanges_init entry data) <->
  forall r, r ∈ data -> returns (step entry (∅, ∅) r).
Proof. apply init_returns_iff. Qed.

(** A composite record without [new_value] makes the decoder raise. *)
Theorem composite_needs_new_value (entry : AuditLogEntry)
  (data : list AuditLogChangePayload) (r : AuditLogChangePayload) :
  returns (AuditLogChanges_init entry data) ->
  r ∈ data -> composite (key r) = true ->
  is_Some (new_value r).
Proof.
  intros Hd Hr Hc.
  destruct (init_returns_each _ _ Hd r Hr) as [[b a] Hs].
  apply step_OK in Hs
    as [(v & _ & -> & _)|[(v & _ & -> & _)|[(v & _ & -> & _)|
       [(v & _ & -> & _)|(Hn & _)]]]]; try done.
  by rewrite Hc in Hn.
Qed.

(** ** What a step leaves alone *)

Lemma lookup_placeholder_eq (bag : AuditLogDiff) k v :
  match bag !! k with
  | Some _ => bag
  | None => <[k := v]> bag
  end !! k = Some (default v (bag !! k)).
Proof.
  destruct (bag !! k) eqn:E; simpl; [done|]. by rewrite lookup_insert_eq.
Qed.

Arguments resolved_name : simpl never.
Arguments transformer_of : simpl never.
Arguments writes : simpl never.

Lemma writes_roles k : k = "$add" \/ k = "$remove" -> writes k = "roles".
Proof. by intros [-> | ->]. Qed.

Lemma writes_trigger_metadata k :
  mem k add_metadata_keys = true \/ mem k remove_metadata_keys = true ->
  writes k = "trigger_metadata".
Proof.
  intros Hk. unfold writes.
  destruct (String.eqb_spec k "$add") as [->|_];
    [by destruct Hk as [Hk|Hk]; vm_compute in Hk|].
  destruct (String.eqb_spec k "$remove") as [->|_];
    [by destruct Hk as [Hk|Hk]; vm_compute in Hk|].
  cbn [orb]. by destruct Hk as [-> | ->]; rewrite ?orb_true_r.
Qed.

Lemma writes_generic k : composite k = false -> writes k = resolved_name k.
Proof.
  unfold composite, writes. intros Hc.
  apply orb_false_iff in Hc as [Hc Hrm].
  apply orb_false_iff in Hc as [Hc Hadd].
  by rewrite Hc, Hadd, Hrm.
Qed.

(** A step touches no attribute but the one it writes, unless its record is
    keyed [__dict__]. *)
Lemma step_frame entry b a r b' a' nm :
  key r <> "__dict__" ->
  step entry (b, a) r = OK (b', a') -> writes (key r) <> nm ->
  b' !! nm = b !! nm /\ a' !! nm = a !! nm.
Proof.
  intros Hnd Hs Hw.
  apply step_OK in Hs
    as [(v & Hk & _ & Hs)|[(v & Hk & _ & Hs)|[(v & Hk & _ & Hs)|
       [(v & Hk & _ & Hs)|(Hc & Hs)]]]].
  - rewrite writes_roles in Hw by auto.
    apply handle_role_OK in Hs as (? & ? & _ & _ & -> & ->).
    by rewrite lookup_placeholder_ne, lookup_insert_ne.
  - rewrite writes_roles in Hw by auto.
    apply handle_role_OK in Hs as (? & ? & _ & _ & -> & ->).
    by rewrite lookup_placeholder_ne, lookup_insert_ne.
  - rewrite writes_trigger_metadata in Hw by auto.
    apply handle_trigger_metadata_OK in Hs as [-> ->].
    by rewrite lookup_placeholder_ne, lookup_insert_ne.
  - rewrite writes_trigger_metadata in Hw by auto.
    apply handle_trigger_metadata_OK in Hs as [-> ->].
    by rewrite lookup_placeholder_ne, lookup_insert_ne.
  - rewrite writes_generic in Hw by done.
    apply generic_stores in Hs as (? & ? & _ & _ & -> & ->); [|done].
    by rewrite !lookup_insert_ne.
Qed.

Lemma loop_frame entry l s s' nm :
  loop entry s l = OK s' ->
  (forall r, r ∈ l -> key r <> "__dict__") ->
  (forall r, r ∈ l -> writes (key r) <> nm) ->
  fst s' !! nm = fst s !! nm /\ snd s' !! nm = snd s !! nm.
Proof.
  revert s. induction l as [|x l IH]; simpl; intros s Hl Hnd Hw.
  - by injection Hl as <-.
  - bind_inv Hl. destruct s as [b a], v as [b1 a1].
    apply (step_frame _ _ _ _ _ _ nm) in E as [Hb Ha];
      [|apply Hnd; by left|apply Hw; by left].
    apply IH in Hl as [Hb' Ha'];
      [|intros r Hr; apply Hnd; by right|intros r Hr; apply Hw; by right].
    simpl in *. by rewrite Hb', Ha', Hb, Ha.
Qed.

(** The value of an attribute after the loop is the one its writer left,
    when the sorted list has a single writer for it and no record keyed
    [__dict__] after that writer. *)
Lemma loop_single_writer entry nm vb va r l :
  writes (key r) = nm ->
  (forall s, exists s', step entry s r = OK s' /\
                        fst s' !! nm = Some vb /\ snd s' !! nm = Some va) ->
  StronglySorted key_le l ->
  (forall r', r' ∈ l -> writes (key r') = nm -> r' = r) ->
  (forall r', r' ∈ l -> key r' = "__dict__" ->
              String.leb (key r) "__dict__" = false) ->
  forall s s',
  loop entry s l = OK s' ->
  (fst s !! nm = Some vb /\ snd s !! nm = Some va /\ Forall (key_le r) l)
  \/ r ∈ l ->
  fst s' !! nm = Some vb /\ snd s' !! nm = Some va.
Proof.
  intros Hw Hr Hsorted.
  induction Hsorted as [|x l Hsl IH Hx]; intros Hu Hdict s s' Hl Hs.
  { injection Hl as <-. destruct Hs as [(? & ? & _)|Hs]; [done|].
    by apply elem_of_nil in Hs. }
  simpl in Hl. bind_inv Hl. rename v into s1.
  apply (IH (fun r' Hr' => Hu r' (list_elem_of_further _ _ _ Hr'))
            (fun r' Hr' => Hdict r' (list_elem_of_further _ _ _ Hr'))
            s1 s' Hl).
  destruct (decide (writes (key x) = nm)) as [Hxw|Hxw].
  - assert (x = r) as -> by (apply Hu; [by left|done]).
    left. destruct (Hr s) as (s2 & Hs2 & ? & ?).
    by assert (s1 = s2) as -> by congruence.
  - destruct Hs as [(Hb & Ha & Hall)|Hs].
    + left. apply Forall_cons in Hall as [Hrx Hall].
      destruct s as [b a], s1 as [b1 a1].
      apply (step_frame _ _ _ _ _ _ nm) in E as [Hb1 Ha1]; [|..|done].
      * simpl in *. by rewrite Hb1, Ha1.
      * intros Hk. pose proof (Hdict x (list_elem_of_here _ _) Hk) as Hlt.
        by apply (key_le_not_dict r x Hlt Hrx).
    + right. apply elem_of_cons in Hs as [->|Hs]; [by rewrite Hw in Hxw|done].
Qed.

Lemma resolved_name_unlisted k :
  assoc k TRANSFORMERS = None ->
  resolved_name k = k /\ transformer_of k = None.
Proof.
  intros Hk. unfold resolved_name, transformer_of, resolve. by rewrite Hk.
Qed.

Lemma never_color k : writes k <> "color".
Proof.
  destruct (composite k) eqn:Hc.
  - apply composite_elem_of in Hc. unfold composite_keys in Hc. simpl in Hc.
    repeat (apply elem_of_cons in Hc as [->|Hc]; [by vm_compute|]).
    by apply elem_of_nil in Hc.
  - rewrite writes_generic by done. intros Hn.
    destruct (resolved_name_table k)
      as [[Hnone Hr]|(o & t & _ & Hok & _ & Hrn)].
    + unfold resolved_name in Hn. rewrite Hr in Hn. simpl in Hn. by subst k.
    + rewrite Hn in Hrn. unfold table_line_ok in Hok. rewrite <- Hrn in Hok.
      discriminate.
Qed.

(** The aliases of a decoded result, when no record of the list is keyed
    [__dict__]: [color] mirrors [colour] on both bags (both absent when no
    record set [colour]), and when the after bag has [expire_behavior],
    [expire_behaviour] mirrors it on both bags. *)
Theorem aliases_mirror (entry : AuditLogEntry)
  (data : list AuditLogChangePayload) (b a : AuditLogDiff) :
  (forall r, r ∈ data -> key r <> "__dict__") ->
  AuditLogChanges_init entry data = OK (b, a) ->
  b !! "color" = b !! "colour" /\ a !! "color" = a !! "colour" /\
  (is_Some (a !! "expire_behavior") ->
   b !! "expire_behaviour" = b !! "expire_behavior" /\
   a !! "expire_behaviour" = a !! "expire_behavior").
Proof.
  intros Hnd Hd. unfold AuditLogChanges_init in Hd. bind_inv Hd. bind_inv Hd.
  destruct v as [b0 a0], v0 as [b1 a1].
  assert (forall r, r ∈ sorted data -> key r <> "__dict__") as Hnd'
    by (intros r Hr; by apply Hnd, elem_of_sorted).
  pose proof (loop_dom _ _ _ _ Hnd' E eq_refl) as Hdom.
  apply (loop_frame _ _ _ _ "color") in E as [Hbc Hac];
    [|done|intros r _; apply never_color].
  simpl in *. rewrite lookup_empty in Hbc, Hac.
  assert (b1 !! "color" = b1 !! "colour" /\ a1 !! "color" = a1 !! "colour"
          /\ dom b1 = dom a1) as (Hb1 & Ha1 & Hdom1).
  { unfold alias in E0. destruct (a0 !! "colour") as [va|] eqn:Hva.
    - destruct (b0 !! "colour") as [vb|] eqn:Hvb; [|done].
      injection E0 as <- <-.
      rewrite !lookup_insert_eq, !lookup_insert_ne by done.
      by rewrite !dom_insert_L, Hdom.
    - injection E0 as <- <-. rewrite Hbc, Hac, Hva.
      split; [|done]. symmetry. apply not_elem_of_dom. rewrite Hdom.
      by apply not_elem_of_dom. }
  unfold alias in Hd. destruct (a1 !! "expire_behavior") as [va|] eqn:Hva.
  - assert ("expire_behavior" ∈ dom b1) as Hin
      by (rewrite Hdom1; apply elem_of_dom; eauto).
    apply elem_of_dom in Hin as [vb Hvb]. rewrite Hvb in Hd.
    injection Hd as <- <-.
    rewrite !lookup_insert_eq, !lookup_insert_ne by done. by rewrite Hvb, Hva.
  - injection Hd as <- <-. rewrite Hva.
    split; [done|]. split; [done|]. by intros [? ?].
Qed.

(** A field the table does not list, and whose name is an ordinary
    attribute name (none of [__dict__], [__class__], [__weakref__]), is
    copied verbatim under its own name: processing its record stores the
    raw values ([None] for an omitted side), and these are the values of the
    decoded result when no other record of the list writes that name and no
    record keyed [__dict__] is processed after it. *)
Theorem unlisted_field_copied (entry : AuditLogEntry)
  (data : list AuditLogChangePayload) (b a : AuditLogDiff)
  (r : AuditLogChangePayload) :
  AuditLogChanges_init entry data = OK (b, a) ->
  r ∈ data ->
  assoc (key r) TRANSFORMERS = None ->
  composite (key r) = false ->
  mem (key r) ["location"; "color"; "expire_behaviour"] = false ->
  reserved (key r) = false ->
  (forall s, step entry s r
             = OK (<[key r := default VNone (old_value r)]> (fst s),
                   <[key r := default VNone (new_value r)]> (snd s))) /\
  ((forall r', r' ∈ data -> writes (key r') = key r -> r' = r) ->
   (forall r', r' ∈ data -> key r' = "__dict__" ->
               String.leb (key r) "__dict__" = false) ->
   b !! key r = Some (default VNone (old_value r)) /\
   a !! key r = Some (default VNone (new_value r))).
Proof.
  intros Hd Hr Hk Hc Hm Hres.
  destruct (resolved_name_unlisted _ Hk) as [Hn Ht].
  apply orb_false_iff in Hm as [Hloc Hm].
  apply orb_false_iff in Hm as [Hcolor Hm].
  apply orb_false_iff in Hm as [Hexpire _].
  apply String.eqb_neq in Hcolor, Hexpire.
  assert (forall s, step entry s r
                    = OK (<[key r := default VNone (old_value r)]> (fst s),
                          <[key r := default VNone (new_value r)]> (snd s)))
    as Hstep.
  { assert (resolve (key r) = (key r, None)) as Hrs
      by (unfold resolve; by rewrite Hk).
    intros s. rewrite step_generic by done. unfold generic. rewrite Hrs.
    destruct (old_value r) as [o|], (new_value r) as [n|];
      cbn [side mbind result_bind default];
      rewrite locate_other, setattr_plain by done; cbn [mbind result_bind];
      by rewrite locate_other, setattr_plain by done. }
  split; [done|]. intros Hu Hdict.
  assert (writes (key r) = key r) as Hw
    by (by rewrite writes_generic, Hn).
  unfold AuditLogChanges_init in Hd. bind_inv Hd. bind_inv Hd.
  apply (loop_single_writer entry (key r) (default VNone (old_value r))
           (default VNone (new_value r)) r) in E as [Hb Ha]; try done.
  - apply (alias_lookup_ne _ _ _ _ (key r)) in E0 as [Hb0 Ha0]; [|done].
    apply (alias_lookup_ne _ _ _ _ (key r)) in Hd as [Hb1 Ha1]; [|done].
    simpl in *. by rewrite Hb1, Hb0, Ha1, Ha0.
  - intros s. eexists. split; [apply Hstep|]. simpl.
    by rewrite !lookup_insert_eq.
  - apply sorted_sorted.
  - intros r' Hr'. apply Hu. by apply elem_of_sorted.
  - intros r' Hr'. apply Hdict. by apply elem_of_sorted.
  - right. by apply elem_of_sorted.
Qed.

(** ** The extra of a decoded entry *)

Lemma from_data_extra users data g e :
  _from_data users data g = OK e ->
  let a := audit_log_action (p_action_type data) in
  let raw := from_option_value (p_options data) in
  action e = a /\ guild e = g /\ _users e = users /\
  (if is_enum_member a && truthy raw then extra_of g users a raw else OK raw)
  = OK (extra e).
Proof.
  unfold _from_data. intros Hf.
  bind_inv Hf. bind_inv Hf. bind_inv Hf. bind_inv Hf.
  injection Hf as <-. by rewrite E0.
Qed.

Lemma action_is_name a member : action_is a member = true -> name a = member.
Proof.
  unfold action_is. intros Ha. apply andb_true_iff in Ha as [_ Ha].
  by apply String.eqb_eq.
Qed.

Lemma action_is_other a m1 m2 :
  action_is a m1 = true -> String.eqb m1 m2 = false -> action_is a m2 = false.
Proof.
  intros H1 Hne. unfold action_is.
  rewrite (action_is_name _ _ H1), Hne. apply andb_false_r.
Qed.

Lemma prefix_head a p b q s :
  String.prefix (String a p) s = true ->
  String.prefix (String b q) s = true -> a = b.
Proof.
  destruct s as [|c s]; [done|]. cbn [String.prefix].
  destruct (Ascii.ascii_dec a c), (Ascii.ascii_dec b c); try done.
  congruence.
Qed.

Lemma int_items_OK d elems :
  int_items (VDict d) = OK elems <->
  Forall2 (fun kv kv' => fst kv' = fst kv /\
                         exists z, int (snd kv) = OK z /\ snd kv' = VInt z)
          d elems.
Proof.
  unfold int_items. revert elems.
  induction d as [|[k v] d IH]; intros elems; simpl.
  - split; [intros [= <-]; constructor|by inversion 1].
  - split.
    + intros Hl. bind_inv Hl. bind_inv E. injection E as <-.
      bind_inv Hl. injection Hl as <-. constructor; [eauto|by apply IH].
    + inversion 1 as [|? [k' v'] ? elems' [Hk (z & Hz & Hv)] Hrest]; subst.
      simpl in *. subst. rewrite Hz. simpl.
      apply IH in Hrest. by rewrite Hrest.
Qed.

(** Member prune: every option is coerced with [int] and the extra is a
    record of them under the same names; an entry is only decoded when every
    option can be coerced. *)
Theorem member_prune_extra (users : gmap Z entity)
  (data : AuditLogEntryPayload) (g : Guild) (e : AuditLogEntry)
  (d : list (string * value)) :
  _from_data users data g = OK e ->
  action_is (audit_log_action (p_action_type data)) "member_prune" = true ->
  p_options data = Some (VDict d) -> d <> [] ->
  exists elems,
    extra e = VProxy elems /\
    Forall2 (fun kv kv' => fst kv' = fst kv /\
                           exists z, int (snd kv) = OK z /\ snd kv' = VInt z)
            d elems.
Proof.
  intros Hf Ha Ho Hd.
  apply from_data_extra in Hf as (_ & _ & _ & Hx). rewrite Ho in Hx.
  unfold action_is in Ha. apply andb_true_iff in Ha as [Hm Hn].
  rewrite Hm in Hx. simpl in Hx.
  destruct d as [|kv d]; [done|].
  unfold extra_of, action_is in Hx. rewrite Hm, Hn in Hx.
  cbn [andb] in Hx. bind_inv Hx. injection Hx as <-.
  exists v. split; [done|]. by apply int_items_OK.
Qed.

(** The actions that carry a channel (member move, message delete, the pin
    actions, the stage instance actions): the extra of a decoded entry is a
    record whose [channel] is the cached channel for the [channel_id] option
    or, on a miss, an opaque reference with that id; it is never null. *)
Theorem extra_channel_resolved (users : gmap Z entity)
  (data : AuditLogEntryPayload) (g : Guild) (e : AuditLogEntry) (raw : value) :
  let a := audit_log_action (p_action_type data) in
  _from_data users data g = OK e ->
  is_enum_member a = true ->
  p_options data = Some raw -> truthy raw = true ->
  action_is a "member_move" || action_is a "message_delete"
  || endswith (name a) "pin" || startswith (name a) "stage_instance" = true ->
  exists elems c z,
    extra e = VProxy elems /\
    getitem raw "channel_id" = OK c /\ int c = OK z /\
    assoc "channel" elems
    = Some (match get_channel g z with
            | Some ch => VEntity ch
            | None => VObject z None
            end).
Proof.
  intros a Hf Hm Ho Ht Hfam.
  apply from_data_extra in Hf as (_ & _ & _ & Hx). fold a in Hx.
  rewrite Ho in Hx. cbn [from_option_value] in Hx. rewrite Hm, Ht in Hx.
  cbn [andb] in Hx. unfold extra_of in Hx.
  assert (action_is a "member_prune" = false) as Hprune.
  { destruct (action_is a "member_prune") eqn:Hp; [|done].
    pose proof (action_is_name _ _ Hp) as Hn.
    rewrite !(action_is_other a "member_prune") in Hfam by done.
    rewrite Hn in Hfam. discriminate. }
  rewrite Hprune in Hx.
  destruct (action_is a "member_move" || action_is a "message_delete") eqn:H1.
  { bind_inv Hx. bind_inv Hx. bind_inv Hx. bind_inv Hx. injection Hx as <-.
    eexists _, v, v0. repeat split; try done. }
  assert (action_is a "member_disconnect" = false) as Hdis.
  { destruct (action_is a "member_disconnect") eqn:Hp; [|done].
    pose proof (action_is_name _ _ Hp) as Hn.
    cbn [orb] in Hfam. rewrite Hn in Hfam. discriminate. }
  rewrite Hdis in Hx. cbn [orb] in Hfam.
  destruct (endswith (name a) "pin") eqn:H2.
  { bind_inv Hx. bind_inv Hx. bind_inv Hx. bind_inv Hx. injection Hx as <-.
    eexists _, v, v0. repeat split; try done. }
  cbn [orb] in Hfam.
  assert (startswith (name a) "overwrite_" = false) as Hov.
  { destruct (startswith (name a) "overwrite_") eqn:Ho'; [|done].
    pose proof (prefix_head _ _ _ _ _ Hfam Ho'). discriminate. }
  rewrite Hov, Hfam in Hx.
  bind_inv Hx. bind_inv Hx. injection Hx as <-.
  eexists _, v, v0. repeat split; try done.
Qed.

(** An entry whose action is not a member of the enum, or whose options are
    absent or empty, keeps its raw options as extra ([None] when absent). *)
Theorem extra_left_raw (users : gmap Z entity)
  (data : AuditLogEntryPayload) (g : Guild) (e : AuditLogEntry) :
  _from_data users data g = OK e ->
  is_enum_member (audit_log_action (p_action_type data)) = false
  \/ truthy (from_option_value (p_options data)) = false ->
  extra e = from_option_value (p_options data).
Proof.
  intros Hf Hc.
  apply from_data_extra in Hf as (_ & _ & _ & Hx).
  destruct Hc as [Hc|Hc]; rewrite Hc, ?andb_false_r in Hx; simpl in Hx;
    by injection Hx as <-.
Qed.

(** The overwrite actions with a type marker: "1" resolves the id to a member
    (the guild's cache, then the entry's user table, else [None]); "0"
    resolves it to the cached role or, on a miss, to an opaque reference
    named by the [role_name] option ([None] when that option is absent). *)
Theorem overwrite_extra_resolved (users : gmap Z entity)
  (data : AuditLogEntryPayload) (g : Guild) (e : AuditLogEntry)
  (d : list (string * value)) (i : value) (z : Z) :
  let a := audit_log_action (p_action_type data) in
  _from_data users data g = OK e ->
  is_enum_member a = true ->
  startswith (name a) "overwrite_" = true ->
  endswith (name a) "pin" = false ->
  p_options data = Some (VDict d) ->
  assoc "id" d = Some i -> int i = OK z ->
  (eq_str (dict_get d "type") "1" = true ->
   extra e = get_member_of g users (VInt z)) /\
  (eq_str (dict_get d "type") "0" = true ->
   extra e = match get_role g z with
             | Some role => VEntity role
             | None => VObject z (Some (dict_get d "role_name"))
             end).
Proof.
  intros a Hf Hm Hs Hp Ho Hid Hz.
  apply from_data_extra in Hf as (_ & _ & _ & Hx). fold a in Hx.
  rewrite Ho in Hx. cbn [from_option_value] in Hx. rewrite Hm in Hx.
  assert (truthy (VDict d) = true) as Htr
    by (destruct d; [discriminate Hid|done]).
  rewrite Htr in Hx. cbn [andb] in Hx. unfold extra_of in Hx.
  rewrite !(action_is_not a "overwrite_") in Hx by done.
  cbn [orb] in Hx. rewrite Hp, Hs in Hx.
  unfold getitem in Hx. rewrite Hid in Hx. cbn in Hx. rewrite Hz in Hx.
  cbn in Hx.
  split; intros Ht.
  - rewrite Ht in Hx. by injection Hx as <-.
  - assert (eq_str (dict_get d "type") "1" = false) as H1.
    { destruct (dict_get d "type"); try done. simpl in *.
      apply String.eqb_eq in Ht as ->. done. }
    rewrite H1, Ht in Hx.
    destruct (get_role g z); by injection Hx as <-.
Qed.

(** ** The decoder reads the entry, not its slots *)

Lemma transformer_same_core e e' k o t v :
  same_core e e' -> assoc k TRANSFORMERS = Some (o, Some t) ->
  t e' v = t e v.
Proof.
  intros (Hs & Hg & Hu & Ha & Ht) Hk.
  apply assoc_elem_of in Hk. unfold TRANSFORMERS in Hk.
  destruct e, e'. cbn [_state guild _users action _target_id] in *. subst.
  repeat (apply elem_of_cons in Hk as [Hk|Hk];
          [first [ discriminate Hk
                 | injection Hk as _ _ ->; reflexivity ]|]).
  by apply elem_of_nil in Hk.
Qed.

Lemma role_of_same_core e e' v :
  same_core e e' -> role_of e' v = role_of e v.
Proof. intros (_ & Hg & _). unfold role_of. by rewrite Hg. Qed.

Lemma step_same_core e e' s r :
  same_core e e' -> step e' s r = step e s r.
Proof.
  intros Hc. destruct s as [b a]. unfold step.
  assert (forall f s v, _handle_role f s e' v = _handle_role f s e v) as Hh.
  { intros f s v. unfold _handle_role.
    destruct (iterate v) as [l|]; [|done]. simpl.
    assert (list_comp (role_of e') l = list_comp (role_of e) l) as ->; [|done].
    induction l as [|x l IH]; simpl; [done|].
    by rewrite (role_of_same_core e e'), IH. }
  assert (generic e' b a r = generic e b a r) as ->;
    [|by destruct (String.eqb (key r) "$add"), (String.eqb (key r) "$remove"),
         (mem (key r) add_metadata_keys), (mem (key r) remove_metadata_keys),
         (new_value r); simpl; rewrite ?Hh].
  unfold generic, resolve.
  destruct (assoc (key r) TRANSFORMERS) as [[o [t|]]|] eqn:Hk;
    [|destruct o as [k|]; by destruct (old_value r), (new_value r)
     |by destruct (old_value r), (new_value r)].
  assert (forall raw, side (Some t) e' raw = side (Some t) e raw) as Hside.
  { intros [v|]; [|done]. simpl. by eapply transformer_same_core. }
  destruct o; by rewrite !Hside.
Qed.

Lemma init_same_core e e' data :
  same_core e e' ->
  AuditLogChanges_init e' data = AuditLogChanges_init e data.
Proof.
  intros Hc. unfold AuditLogChanges_init.
  assert (forall l s, loop e' s l = loop e s l) as ->; [|done].
  induction l as [|x l IH]; intros s; simpl; [done|].
  rewrite (step_same_core e e') by done.
  destruct (step e s x); simpl; [apply IH|done].
Qed.

(** ** Reads of a fresh entry *)

Lemma changes_OK_slot w c w' :
  changes w = (OK c, w') -> changes_slot (fst w') = Some c.
Proof.
  destruct w as [e h]. intros Hc.
  destruct (changes_slot e) as [c0|] eqn:Hs.
  - rewrite (changes_again _ _ _ Hs) in Hc. by injection Hc as <- <-.
  - apply changes_first_inv in Hc as (? & ? & ? & _ & _ & _ & ->); done.
Qed.

Lemma changes_reached e0 data h0 w :
  reached e0 data h0 w -> reached e0 data h0 (snd (changes w)).
Proof.
  destruct w as [e h]. intros [Hc Hw]. simpl in *.
  destruct Hw as [(Hs & Hb & Ha & Hraw & ->)|(b & a & Hd & Hs & Hraw & ->)].
  - destruct (AuditLogChanges_init e0 data) as [[b a]|x] eqn:Hd.
    + rewrite (changes_first e h0 data b a Hs Hraw)
        by (by rewrite (init_same_core e0 e)).
      split; [done|]. right. exists b, a. by simpl.
    + unfold changes. rewrite Hs, Hraw, (init_same_core e0 e), Hd by done.
      split; [done|]. left. by simpl.
  - rewrite (changes_again _ _ _ Hs). split; [done|]. right. eauto 10.
Qed.

Lemma reached_decoded e0 data h0 e h c :
  reached e0 data h0 (e, h) -> changes_slot e = Some c ->
  c = S (S (length h0)) /\
  h !! c = Some (OChanges (length h0) (S (length h0))).
Proof.
  intros [_ [(Hs & _)|(b & a & _ & Hs & _ & Hh)]] Hc; simpl in *;
    [congruence|].
  assert (c = S (S (length h0))) as -> by congruence.
  split; [done|]. rewrite Hh. apply heap_after_first.
Qed.

Lemma reached_with_before e0 data h0 e h c l :
  reached e0 data h0 (e, h) -> changes_slot e = Some c ->
  reached e0 data h0 (with_before e l, h).
Proof.
  intros [Hc [(Hs & _)|Hw]] Hsl; simpl in *; [congruence|].
  split; [done|]. by right.
Qed.

Lemma reached_with_after e0 data h0 e h c l :
  reached e0 data h0 (e, h) -> changes_slot e = Some c ->
  reached e0 data h0 (with_after e l, h).
Proof.
  intros [Hc [(Hs & _)|Hw]] Hsl; simpl in *; [congruence|].
  split; [done|]. by right.
Qed.

Lemma before_reached e0 data h0 w :
  reached e0 data h0 w -> reached e0 data h0 (snd (before w)).
Proof.
  intros Hw. unfold before. destruct (before_slot (fst w)); [done|].
  pose proof (changes_reached _ _ _ _ Hw) as Hw'.
  destruct (changes w) as [[c|x] [e h]] eqn:Hc; [|done].
  apply changes_OK_slot in Hc. simpl in *.
  destruct (reached_decoded _ _ _ _ _ _ Hw' Hc) as [_ ->].
  by eapply reached_with_before.
Qed.

Lemma after_reached e0 data h0 w :
  reached e0 data h0 w -> reached e0 data h0 (snd (after w)).
Proof.
  intros Hw. unfold after. destruct (after_slot (fst w)); [done|].
  pose proof (changes_reached _ _ _ _ Hw) as Hw'.
  destruct (changes w) as [[c|x] [e h]] eqn:Hc; [|done].
  apply changes_OK_slot in Hc. simpl in *.
  destruct (reached_decoded _ _ _ _ _ _ Hw' Hc) as [_ ->].
  by eapply reached_with_after.
Qed.

Lemma reads_reached e0 data h0 xs w :
  reached e0 data h0 w -> reached e0 data h0 (reads xs w).
Proof.
  revert w. induction xs as [|x xs IH]; intros w Hw; [done|].
  simpl. apply IH. destruct x; simpl.
  - by apply changes_reached.
  - by apply before_reached.
  - by apply after_reached.
  - apply target_keeps; auto using before_reached, after_reached.
Qed.

Lemma fresh_reached e data h :
  fresh e -> _changes e = Some data -> reached e data h (e, h).
Proof.
  intros (Hs & Hb & Ha & _) Hraw. split; [done|]. left. by simpl.
Qed.

(** The raw change list is decoded at most once: whatever is read of a
    freshly constructed entry, in whatever order, the heap is the initial
    one or the initial one followed by the two diffs and the
    [AuditLogChanges] object of the one decoding; and when the raw list can
    be decoded, [changes] then returns that same object. *)
Theorem decoded_at_most_once (e : AuditLogEntry)
  (data : list AuditLogChangePayload) (h : list object)
  (xs : list property) :
  fresh e -> _changes e = Some data ->
  let w := reads xs (e, h) in
  (snd w = h \/
   exists b a,
     AuditLogChanges_init e data = OK (b, a) /\
     snd w = (h ++ [ODiff b; ODiff a;
                    OChanges (length h) (S (length h))])%list) /\
  forall b a,
    AuditLogChanges_init e data = OK (b, a) ->
    fst (changes w) = OK (S (S (length h))) /\
    snd (snd (changes w))
    = (h ++ [ODiff b; ODiff a; OChanges (length h) (S (length h))])%list.
Proof.
  intros Hf Hraw w.
  assert (reached e data h w) as [Hc Hw]
    by (by apply reads_reached, fresh_reached).
  destruct w as [e' h']. simpl in *.
  destruct Hw as [(Hs & _ & _ & Hraw' & ->)|(b & a & Hd & Hs & _ & ->)].
  - split; [by left|]. intros b a Hd.
    rewrite (changes_first e' h data b a); [done..|].
    by rewrite (init_same_core e e').
  - split; [right; eauto|]. intros b' a' Hd'.
    rewrite (changes_again _ _ _ Hs). simpl.
    assert (b' = b /\ a' = a) as [-> ->] by (split; congruence). done.
Qed.

(** A decoding that fails is not cached: if the raw change list of a freshly
    constructed entry cannot be decoded, then whatever is read of the entry,
    [changes], [before] and [after] raise that same exception, the raw list
    is still there and nothing has been put on the heap. *)
Theorem failure_not_cached (e : AuditLogEntry)
  (data : list AuditLogChangePayload) (h : list object)
  (xs : list property) (x : exn) :
  fresh e -> _changes e = Some data ->
  AuditLogChanges_init e data = Raise x ->
  let w := reads xs (e, h) in
  fst (changes w) = Raise x /\ fst (before w) = Raise x /\
  fst (after w) = Raise x /\
  _changes (fst w) = Some data /\ snd w = h.
Proof.
  intros Hf Hraw Hd w.
  assert (reached e data h w) as [Hc Hw]
    by (by apply reads_reached, fresh_reached).
  destruct w as [e' h']. simpl in *.
  destruct Hw as [(Hs & Hb & Ha & Hraw' & ->)|(b & a & Hd' & _)];
    [|congruence].
  assert (changes (e', h) = (Raise x, (e', h))) as Hch.
  { unfold changes. by rewrite Hs, Hraw', (init_same_core e e'), Hd. }
  unfold before, after. simpl. by rewrite Hb, Ha, Hch.
Qed.

(** ** An invite target with fields missing *)

Lemma before_first_world e h data b a :
  changes_slot e = None -> before_slot e = None -> _changes e = Some data ->
  AuditLogChanges_init e data = OK (b, a) ->
  before (e, h)
  = (OK (length h),
     (with_before (with_changes e (S (S (length h)))) (length h),
      (h ++ [ODiff b; ODiff a; OChanges (length h) (S (length h))])%list)).
Proof.
  intros Hs Hb Hraw Hd. unfold before. simpl. rewrite Hb.
  rewrite (changes_first e h data b a Hs Hraw Hd).
  destruct (heap_after_first h b a) as (_ & _ & Hch).
  cbv zeta in Hch. by rewrite Hch.
Qed.

Lemma after_first_world e h data b a :
  changes_slot e = None -> after_slot e = None -> _changes e = Some data ->
  AuditLogChanges_init e data = OK (b, a) ->
  after (e, h)
  = (OK (S (length h)),
     (with_after (with_changes e (S (S (length h)))) (S (length h)),
      (h ++ [ODiff b; ODiff a; OChanges (length h) (S (length h))])%list)).
Proof.
  intros Hs Ha Hraw Hd. unfold after. simpl. rewrite Ha.
  rewrite (changes_first e h data b a Hs Hraw Hd).
  destruct (heap_after_first h b a) as (_ & _ & Hch).
  cbv zeta in Hch. by rewrite Hch.
Qed.

Lemma target_invite_world e h data b a :
  fresh e -> _changes e = Some data ->
  target_type (action e) = Some "invite" ->
  AuditLogChanges_init e data = OK (b, a) ->
  exists e' h',
    changes_slot e' = Some (S (S (length h))) /\ target_slot e' = None /\
    target (e, h)
    = match invite_of (if action_is (action e) "invite_delete"
                       then b else a) with
      | OK t => (OK t, (with_target e' t, h'))
      | Raise x => (Raise x, (e', h'))
      end.
Proof.
  intros (Hs & Hb & Ha & Ht) Hraw Htt Hd.
  destruct (heap_after_first h b a) as (Hlb & Hla & _).
  cbv zeta in Hlb, Hla.
  unfold target. simpl. rewrite Ht, Htt.
  change (converter (Some "invite")) with (Some _convert_target_invite).
  unfold _convert_target_invite. simpl.
  destruct (action_is (action e) "invite_delete").
  - rewrite (before_first_world e h data b a Hs Hb Hraw Hd).
    unfold attrs_at. simpl. rewrite Hlb. simpl.
    eexists _, _. split; [|split]; [| |by destruct (invite_of b)]; done.
  - rewrite (after_first_world e h data b a Hs Ha Hraw Hd).
    unfold attrs_at. simpl. rewrite Hla. simpl.
    eexists _, _. split; [|split]; [| |by destruct (invite_of a)]; done.
Qed.

Lemma getattr_OK bag f v : getattr bag f = OK v <-> bag !! f = Some v.
Proof. unfold getattr. destruct (bag !! f); split; congruence. Qed.

Lemma invite_of_returns cs :
  returns (invite_of cs) <->
  Forall (fun f => is_Some (cs !! f)) invite_fields.
Proof.
  unfold invite_fields. rewrite !Forall_cons, Forall_nil. split.
  - intros [t Ht]. unfold invite_of in Ht.
    do 6 (bind_inv Ht).
    apply getattr_OK in E, E0, E1, E2, E3, E4. eauto 10.
  - intros ([v1 H1] & [v2 H2] & [v3 H3] & [v4 H4] & [v5 H5] & [v6 H6] & _).
    unfold invite_of, getattr. rewrite H1, H2, H3, H4, H5, H6. by eexists.
Qed.

Lemma invite_of_raises cs x : invite_of cs = Raise x -> x = AttributeError.
Proof.
  unfold invite_of, getattr.
  destruct (cs !! "max_age"); simpl; [|congruence].
  destruct (cs !! "max_uses"); simpl; [|congruence].
  destruct (cs !! "code"); simpl; [|congruence].
  destruct (cs !! "temporary"); simpl; [|congruence].
  destruct (cs !! "uses"); simpl; [|congruence].
  destruct (cs !! "channel"); simpl; congruence.
Qed.

(** The target of an invite entry needs the six invite fields on the chosen
    diff: the access returns exactly when the diff has them all, and raises
    [AttributeError] otherwise; a raising access has nevertheless decoded
    and cached the changes, and left the target slot empty. *)
Theorem invite_target_needs_fields (e : AuditLogEntry) (h : list object)
  (data : list AuditLogChangePayload) (b a : AuditLogDiff) :
  fresh e -> _changes e = Some data ->
  target_type (action e) = Some "invite" ->
  AuditLogChanges_init e data = OK (b, a) ->
  let changeset := if action_is (action e) "invite_delete" then b else a in
  let complete := Forall (fun f => is_Some (changeset !! f)) invite_fields in
  (returns (fst (target (e, h))) <-> complete) /\
  (~ complete ->
   fst (target (e, h)) = Raise AttributeError /\
   target_slot (fst (snd (target (e, h)))) = None /\
   changes_slot (fst (snd (target (e, h)))) = Some (S (S (length h)))).
Proof.
  intros Hf Hraw Htt Hd changeset complete.
  destruct (target_invite_world e h data b a Hf Hraw Htt Hd)
    as (e' & h' & Hs & Ht & ->).
  fold changeset. unfold complete. rewrite <- invite_of_returns.
  split.
  - by destruct (invite_of changeset).
  - intros Hn. destruct (invite_of changeset) as [t|x] eqn:Hi.
    + destruct Hn. by eexists.
    + apply invite_of_raises in Hi as ->. done.
Qed.

(** ** The location of an external event *)

Lemma step_entity_type entry s s' rt :
  key rt = "entity_type" -> step entry s rt = OK s' -> typed rt s'.
Proof.
  intros Hk Hs. rewrite step_generic in Hs by (by rewrite Hk).
  destruct s' as [b' a'].
  apply generic_plain in Hs as (vb & va & Hvb & Hva & -> & ->);
    [|by rewrite Hk].
  rewrite Hk in *.
  change (transformer_of "entity_type")
    with (Some (_enum_transformer ScheduledEventLocationType)) in Hvb, Hva.
  change (resolved_name "entity_type") with "location_type".
  unfold typed, location_type_of. simpl.
  rewrite !lookup_insert_eq, !locate_other by done.
  unfold side, _enum_transformer in Hvb, Hva.
  by destruct (old_value rt), (new_value rt); simplify_eq.
Qed.

Lemma step_location entry s s' rt rl :
  key rl = "location" -> step entry s rl = OK s' -> typed rt s ->
  typed rt s' /\ located rt rl s'.
Proof.
  intros Hk Hs [Hb Ha]. rewrite step_generic in Hs by (by rewrite Hk).
  destruct s as [b a], s' as [b' a']. simpl in *.
  apply generic_plain in Hs as (vb & va & Hvb & Hva & -> & ->);
    [|by rewrite Hk].
  rewrite Hk in *.
  change (transformer_of "location") with (@None Transformer) in Hvb, Hva.
  change (resolved_name "location") with "location".
  assert (vb = default VNone (old_value rl)) as ->
    by (by destruct (old_value rl); simplify_eq/=).
  assert (va = default VNone (new_value rl)) as ->
    by (by destruct (new_value rl); simplify_eq/=).
  unfold typed, located. simpl.
  rewrite !lookup_insert_eq, !lookup_insert_ne by done.
  split; [done|]. unfold locate. simpl. rewrite Hb, Ha.
  split; by intros ->.
Qed.

Lemma keys_out_of_order rt rl :
  key rt = "entity_type" -> key rl = "location" -> ~ key_le rl rt.
Proof.
  unfold key_le, String.le. intros -> -> Hle. by vm_compute in Hle.
Qed.

Lemma loop_locates entry rt rl l :
  key rt = "entity_type" -> key rl = "location" ->
  StronglySorted key_le l ->
  (forall r', r' ∈ l -> writes (key r') = "location_type" -> r' = rt) ->
  (forall r', r' ∈ l -> writes (key r') = "location" -> r' = rl) ->
  forall s s',
  loop entry s l = OK s' ->
  (typed rt s /\ located rt rl s /\ Forall (key_le rl) l) \/
  (typed rt s /\ Forall (key_le rt) l /\ rl ∈ l) \/
  (rt ∈ l /\ rl ∈ l) ->
  located rt rl s'.
Proof.
  intros Hkt Hkl Hsorted.
  assert (writes (key rt) = "location_type") as Hwt by (by rewrite Hkt).
  assert (writes (key rl) = "location") as Hwl by (by rewrite Hkl).
  assert (rt <> rl) as Hne by (intros ->; congruence).
  induction Hsorted as [|x l Hl IH Hx]; intros Hut Hul s s' Hloop Hs.
  { injection Hloop as <-.
    destruct Hs as [(_ & ? & _)|[(_ & _ & Hin)|[_ Hin]]]; [done|..];
      by apply elem_of_nil in Hin. }
  simpl in Hloop. bind_inv Hloop. rename v into s1.
  apply (IH (fun r' Hr' => Hut r' (list_elem_of_further _ _ _ Hr'))
            (fun r' Hr' => Hul r' (list_elem_of_further _ _ _ Hr'))
            s1 s' Hloop).
  destruct (decide (writes (key x) = "location_type")) as [Hxt|Hxt].
  { assert (x = rt) as -> by (apply Hut; [by left|done]).
    pose proof (step_entity_type _ _ _ _ Hkt E) as Ht1.
    right; left. split; [done|]. split; [done|].
    destruct Hs as [(_ & _ & Hall)|[(_ & _ & Hin)|[_ Hin]]].
    - apply Forall_cons in Hall as [Hbad _].
      by apply keys_out_of_order in Hbad.
    - apply elem_of_cons in Hin as [?|?]; [by subst|done].
    - apply elem_of_cons in Hin as [?|?]; [by subst|done]. }
  destruct (decide (writes (key x) = "location")) as [Hxl|Hxl].
  { assert (x = rl) as -> by (apply Hul; [by left|done]).
    destruct Hs as [(Ht & _ & Hall)|[(Ht & _ & _)|[Hin _]]].
    - destruct (step_location _ _ _ rt _ Hkl E Ht) as [Ht1 Hl1].
      left. split; [done|]. split; [done|]. by apply Forall_cons in Hall as [_ ?].
    - destruct (step_location _ _ _ rt _ Hkl E Ht) as [Ht1 Hl1].
      left. split; [done|]. split; done.
    - apply elem_of_cons in Hin as [?|Hin]; [done|].
      rewrite Forall_forall in Hx. apply Hx in Hin.
      by apply keys_out_of_order in Hin. }
  destruct s as [b a], s1 as [b1 a1].
  assert (forall r, r ∈ x :: l -> writes (key r) <> writes (key x) -> r ∈ l)
    as Htail.
  { intros r Hr Hw. apply elem_of_cons in Hr as [->|?]; done. }
  destruct Hs as [(Ht & Hloc & Hall)|[(Ht & Hall & Hin)|[Hint Hinl]]].
  - apply Forall_cons in Hall as [Hlx Hall].
    assert (key x <> "__dict__") as Hnd
      by (apply (key_le_not_dict rl); [by rewrite Hkl|done]).
    destruct (step_frame _ _ _ _ _ _ "location_type" Hnd E Hxt) as [Hbt Hat].
    destruct (step_frame _ _ _ _ _ _ "location" Hnd E Hxl) as [Hbl Hal].
    left. unfold typed, located in *. simpl in *.
    rewrite Hbt, Hat, Hbl, Hal. split; [done|]. split; done.
  - apply Forall_cons in Hall as [Htx Hall].
    assert (key x <> "__dict__") as Hnd
      by (apply (key_le_not_dict rt); [by rewrite Hkt|done]).
    destruct (step_frame _ _ _ _ _ _ "location_type" Hnd E Hxt) as [Hbt Hat].
    right; left. unfold typed in *. simpl in *. rewrite Hbt, Hat.
    split; [done|]. split; [done|].
    apply Htail; [done|congruence].
  - do 2 right. split; apply Htail; try done; congruence.
Qed.

(** An external event's location is wrapped: when the list has an
    [entity_type] record and a [location] record, and no other record
    writes [location_type] or [location], the [entity_type] record is
    processed first and, on each side where it gives the external location
    type, the bag of the decoded result carries the raw location wrapped
    into a location object. *)
Theorem external_location_wrapped (entry : AuditLogEntry)
  (data : list AuditLogChangePayload) (b a : AuditLogDiff)
  (rt rl : AuditLogChangePayload) :
  AuditLogChanges_init entry data = OK (b, a) ->
  rt ∈ data -> key rt = "entity_type" ->
  rl ∈ data -> key rl = "location" ->
  (forall r', r' ∈ data -> writes (key r') = "location_type" -> r' = rt) ->
  (forall r', r' ∈ data -> writes (key r') = "location" -> r' = rl) ->
  (forall o, old_value rt = Some o ->
     enum_value_map ScheduledEventLocationType o = Some "external" ->
     b !! "location" = Some (VLocation (default VNone (old_value rl)))) /\
  (forall o, new_value rt = Some o ->
     enum_value_map ScheduledEventLocationType o = Some "external" ->
     a !! "location" = Some (VLocation (default VNone (new_value rl)))).
Proof.
  intros Hd Hrt Hkt Hrl Hkl Hut Hul.
  unfold AuditLogChanges_init in Hd. bind_inv Hd. bind_inv Hd.
  assert (located rt rl v) as [Hb Ha].
  { eapply (loop_locates entry rt rl (sorted data)); eauto.
    - apply sorted_sorted.
    - intros r' Hr'. apply Hut. by apply elem_of_sorted.
    - intros r' Hr'. apply Hul. by apply elem_of_sorted.
    - do 2 right. by rewrite !elem_of_sorted. }
  apply (alias_lookup_ne _ _ _ _ "location") in E0 as [Hb0 Ha0]; [|done].
  apply (alias_lookup_ne _ _ _ _ "location") in Hd as [Hb1 Ha1]; [|done].
  simpl in *. rewrite Hb1, Hb0, Ha1, Ha0.
  split; intros o Ho He; [apply Hb|apply Ha]; rewrite Ho;
    unfold location_type_of, try_enum; by rewrite He.
Qed.

(** ** Trigger metadata *)

Lemma step_add_metadata entry b a r v :
  mem (key r) add_metadata_keys = true -> new_value r = Some v ->
  step entry (b, a) r
  = OK (match b !! "trigger_metadata" with
        | Some _ => b
        | None => <["trigger_metadata" := VNone]> b
        end,
        <["trigger_metadata" :=
            VTriggerMetadata (VDict [(split_last (key r), v)])]> a)
  /\ "$add_" +:+ split_last (key r) = key r.
Proof.
  intros Hm Hv. unfold step. rewrite Hv.
  apply mem_elem_of in Hm. unfold add_metadata_keys in Hm.
  repeat (apply elem_of_cons in Hm as [->|Hm]; [done|]).
  by apply elem_of_nil in Hm.
Qed.

Lemma step_remove_metadata entry b a r v :
  mem (key r) remove_metadata_keys = true -> new_value r = Some v ->
  step entry (b, a) r
  = OK (<["trigger_metadata" :=
            VTriggerMetadata (VDict [(split_last (key r), v)])]> b,
        match a !! "trigger_metadata" with
        | Some _ => a
        | None => <["trigger_metadata" := VNone]> a
        end)
  /\ "$remove_" +:+ split_last (key r) = key r.
Proof.
  intros Hm Hv. unfold step. rewrite Hv.
  apply mem_elem_of in Hm. unfold remove_metadata_keys in Hm.
  repeat (apply elem_of_cons in Hm as [->|Hm]; [done|]).
  by apply elem_of_nil in Hm.
Qed.

(** The single writer of an attribute, when what it leaves depends on what
    it finds: [G] is established from [I] and kept. *)
Lemma loop_single_writer_from entry nm r l
  (I G : AuditLogDiff * AuditLogDiff -> Prop) :
  writes (key r) = nm ->
  (forall s s', step entry s r = OK s' -> I s \/ G s -> G s') ->
  (forall s s', fst s' !! nm = fst s !! nm -> snd s' !! nm = snd s !! nm ->
                (I s -> I s') /\ (G s -> G s')) ->
  (forall r', r' ∈ l -> writes (key r') = nm -> r' = r) ->
  (forall r', r' ∈ l -> key r' <> "__dict__") ->
  forall s s',
  loop entry s l = OK s' -> (I s /\ r ∈ l) \/ G s -> G s'.
Proof.
  intros Hw Hr Hframe. induction l as [|x l IH]; intros Hu Hnd s s' Hl Hs.
  { injection Hl as <-. destruct Hs as [[_ Hin]|Hs]; [|done].
    by apply elem_of_nil in Hin. }
  simpl in Hl. bind_inv Hl. rename v into s1.
  apply (IH (fun r' Hr' => Hu r' (list_elem_of_further _ _ _ Hr'))
            (fun r' Hr' => Hnd r' (list_elem_of_further _ _ _ Hr'))
            s1 s' Hl).
  destruct (decide (writes (key x) = nm)) as [Hx|Hx].
  - assert (x = r) as -> by (apply Hu; [by left|done]).
    right. apply (Hr s s1 E). destruct Hs as [[? _]|?]; auto.
  - destruct s as [b a], s1 as [b1 a1].
    destruct (step_frame _ _ _ _ _ _ nm (Hnd x (list_elem_of_here _ _)) E Hx)
      as [Hb Ha].
    destruct (Hframe (b, a) (b1, a1) Hb Ha) as [HI HG].
    destruct Hs as [[Hi Hin]|Hg]; [left|right; auto].
    split; [auto|]. apply elem_of_cons in Hin as [->|?]; [|done].
    by rewrite Hw in Hx.
Qed.

(** The only trigger-metadata record of a list that has no record keyed
    [__dict__] (which would replace the bags afterwards): an add record
    leaves on the after bag a metadata object with the one field named by
    the key's suffix and [None] on the before bag; a remove record does the
    same with the bags exchanged. *)
Theorem metadata_lists (entry : AuditLogEntry)
  (data : list AuditLogChangePayload) (b a : AuditLogDiff)
  (r : AuditLogChangePayload) (v : value) :
  AuditLogChanges_init entry data = OK (b, a) ->
  r ∈ data -> new_value r = Some v ->
  (forall r', r' ∈ data -> writes (key r') = "trigger_metadata" -> r' = r) ->
  (forall r', r' ∈ data -> key r' <> "__dict__") ->
  let metadata := VTriggerMetadata (VDict [(split_last (key r), v)]) in
  (mem (key r) add_metadata_keys = true ->
   a !! "trigger_metadata" = Some metadata /\
   b !! "trigger_metadata" = Some VNone /\
   "$add_" +:+ split_last (key r) = key r) /\
  (mem (key r) remove_metadata_keys = true ->
   b !! "trigger_metadata" = Some metadata /\
   a !! "trigger_metadata" = Some VNone /\
   "$remove_" +:+ split_last (key r) = key r).
Proof.
  intros Hd Hr Hv Hu Hnd metadata.
  assert (forall r', r' ∈ sorted data -> key r' <> "__dict__") as Hnd'
    by (intros r' Hin; by apply Hnd, elem_of_sorted).
  unfold AuditLogChanges_init in Hd. bind_inv Hd. bind_inv Hd.
  apply (alias_lookup_ne _ _ _ _ "trigger_metadata") in E0 as [Hb0 Ha0];
    [|done].
  apply (alias_lookup_ne _ _ _ _ "trigger_metadata") in Hd as [Hb1 Ha1];
    [|done].
  simpl in *. rewrite Hb1, Hb0, Ha1, Ha0.
  pose (I := fun s : AuditLogDiff * AuditLogDiff =>
               fst s !! "trigger_metadata" = None /\
               snd s !! "trigger_metadata" = None).
  assert (I (∅, ∅)) as HI by done.
  assert (r ∈ sorted data) as Hr' by (by apply elem_of_sorted).
  assert (forall r', r' ∈ sorted data ->
                     writes (key r') = "trigger_metadata" -> r' = r) as Hu'.
  { intros r' Hin. apply Hu. by apply elem_of_sorted. }
  split; intros Hm.
  - destruct (step_add_metadata entry ∅ ∅ r v Hm Hv) as [_ Hsuffix].
    pose (G := fun s : AuditLogDiff * AuditLogDiff =>
                 fst s !! "trigger_metadata" = Some VNone /\
                 snd s !! "trigger_metadata" = Some metadata).
    assert (G v0) as [Hb Ha]; [|done].
    apply (loop_single_writer_from entry "trigger_metadata" r (sorted data)
             I G) with (s := (∅, ∅)); auto.
    + apply writes_trigger_metadata. auto.
    + intros [b0 a0] s' Hs Hig.
      rewrite (proj1 (step_add_metadata entry b0 a0 r v Hm Hv)) in Hs.
      injection Hs as <-. unfold G, I in *. simpl in *.
      rewrite lookup_placeholder_eq, lookup_insert_eq.
      by destruct Hig as [[-> _]|[-> _]].
    + intros s s' Hbq Haq. unfold I, G. by rewrite Hbq, Haq.
  - destruct (step_remove_metadata entry ∅ ∅ r v Hm Hv) as [_ Hsuffix].
    pose (G := fun s : AuditLogDiff * AuditLogDiff =>
                 fst s !! "trigger_metadata" = Some metadata /\
                 snd s !! "trigger_metadata" = Some VNone).
    assert (G v0) as [Hb Ha]; [|done].
    apply (loop_single_writer_from entry "trigger_metadata" r (sorted data)
             I G) with (s := (∅, ∅)); auto.
    + apply writes_trigger_metadata. auto.
    + intros [b0 a0] s' Hs Hig.
      rewrite (proj1 (step_remove_metadata entry b0 a0 r v Hm Hv)) in Hs.
      injection Hs as <-. unfold G, I in *. simpl in *.
      rewrite lookup_placeholder_eq, lookup_insert_eq.
      by destruct Hig as [[_ ->]|[_ ->]].
    + intros s s' Hbq Haq. unfold I, G. by rewrite Hbq, Haq.
Qed.

(** ** Targets looked up in a cache *)

(** For the target types resolved in a cache (channel, role, stage instance,
    thread and scheduled event in the guild; emoji and sticker in the
    connection state) and an integer target id, the first access to [target]
    returns the cached object or, on a miss, an opaque reference with that
    id: it does not raise, returns no null, fills the target slot and leaves
    the changes and the heap alone. *)
Theorem target_resolved (e : AuditLogEntry) (h : list object) (z : Z)
  (t : string) :
  target_slot e = None -> _target_id e = VInt z ->
  target_type (action e) = Some t -> t ∈ cached_kinds ->
  let v := match cache_for e t z with
           | Some x => VEntity x
           | None => VObject z None
           end in
  target (e, h) = (OK v, (with_target e v, h)).
Proof.
  intros Hs Hid Ht Hin v. subst v. unfold target. simpl.
  rewrite Hs, Ht, Hid. unfold cached_kinds in Hin.
  repeat (apply elem_of_cons in Hin as [->|Hin];
          [cbn [converter assoc String.eqb Ascii.eqb Bool.eqb];
           unfold cache_for, _convert_target_channel, _convert_target_role,
             _convert_target_emoji, _convert_target_stage_instance,
             _convert_target_sticker, _convert_target_thread,
             _convert_target_scheduled_event, pure, cached_or_object, Object;
           simpl;
           match goal with
           | |- context [match ?f z with _ => _ end] => by destruct (f z)
           end|]).
  by apply elem_of_nil in Hin.
Qed.

(** An action with no target type, or with one that has no converter,
    targets an opaque reference made from the target id: with an id that
    [int] accepts, the first access returns the reference carrying that
    number and fills the target slot; with a null target id it raises
    [TypeError] and fills nothing. *)
Theorem target_fallback (e : AuditLogEntry) (h : list object) :
  target_slot e = None ->
  converter (target_type (action e)) = None ->
  (forall z, int (_target_id e) = OK z ->
     target (e, h)
     = (OK (VObject z None), (with_target e (VObject z None), h))) /\
  (_target_id e = VNone -> target (e, h) = (Raise TypeError, (e, h))).
Proof.
  intros Hs Hc. unfold target, pure, Object. simpl. rewrite Hs, Hc.
  split; [intros z Hz|intros Hz]; by rewrite Hz.
Qed.

(** ** Overwrites *)

Lemma list_comp_OK {A B} (f : A -> result B) l l' :
  list_comp f l = OK l' <-> Forall2 (fun x y => f x = OK y) l l'.
Proof.
  split; [|apply list_comp_Forall2].
  revert l'. induction l as [|x l IH]; intros l'; simpl.
  - intros [= <-]. constructor.
  - intros Hl. bind_inv Hl. bind_inv Hl. injection Hl as <-.
    constructor; auto.
Qed.

(** The targets of decoded overwrites are never null: every element of the
    list is a pair of a target that is not [None] and the overwrite built
    from the allow and deny masks. *)
Theorem overwrite_targets_not_null (entry : AuditLogEntry) (data : value)
  (l : list value) :
  _transform_overwrites entry data = OK (VList l) ->
  Forall (fun x => exists t p q,
                     x = VTuple t (VOverwrite p q) /\ t <> VNone) l.
Proof.
  unfold _transform_overwrites. intros Ht.
  bind_inv Ht. bind_inv Ht. injection Ht as <-.
  apply list_comp_OK in E0. clear E.
  induction E0 as [|x y l l' Hxy _ IH]; constructor; [|done].
  unfold overwrite_of in Hxy. do 7 (bind_inv Hxy). injection Hxy as <-.
  eexists _, _, _. split; [done|].
  destruct (eq_int v3 0).
  - by destruct (get_role (guild entry) v5).
  - destruct (eq_int v3 1); [|done].
    by destruct (_get_member entry (VInt v5)).
Qed.

(** ** Null values *)

Lemma rejecting_side entry k :
  mem k null_rejecting = true ->
  composite k = false /\
  side (transformer_of k) entry (Some VNone) = Raise TypeError.
Proof.
  intros Hk. apply mem_elem_of in Hk. unfold null_rejecting in Hk.
  repeat (apply elem_of_cons in Hk as [->|Hk]; [split; reflexivity|]).
  by apply elem_of_nil in Hk.
Qed.

Lemma tolerant_side entry k :
  mem k null_tolerant = true ->
  composite k = false /\ reserved k = false /\
  String.eqb (resolved_name k) "location" = false /\
  side (transformer_of k) entry (Some VNone) = OK VNone.
Proof.
  intros Hk. apply mem_elem_of in Hk. unfold null_tolerant in Hk.
  repeat (apply elem_of_cons in Hk as [->|Hk];
          [split; [reflexivity|split; [reflexivity|split; reflexivity]]|]).
  by apply elem_of_nil in Hk.
Qed.

(** A null is rejected where the transformer converts it: a record whose key
    is transformed with [int] or iterated ([allow], [deny], [permissions],
    [id], [command_id], [permission_overwrites]) and which carries an
    explicit null on either side makes the decoder raise, whatever else the
    list holds; with the null on the old side the record raises
    [TypeError]. *)
Theorem null_value_rejected (entry : AuditLogEntry)
  (data : list AuditLogChangePayload) (r : AuditLogChangePayload) :
  r ∈ data -> mem (key r) null_rejecting = true ->
  old_value r = Some VNone \/ new_value r = Some VNone ->
  ~ returns (AuditLogChanges_init entry data) /\
  (old_value r = Some VNone -> forall s, step entry s r = Raise TypeError).
Proof.
  intros Hr Hk Hnull. destruct (rejecting_side entry _ Hk) as [Hc Hside].
  split.
  - intros Hd.
    destruct (init_returns_each _ _ Hd r Hr) as [[b a] Hs].
    rewrite step_generic in Hs by done.
    apply generic_OK in Hs as (vb & va & Hvb & Hva & _).
    destruct Hnull as [Ho|Hn]; [rewrite Ho in Hvb|rewrite Hn in Hva];
      congruence.
  - intros Ho s. rewrite step_generic by done.
    unfold generic. unfold transformer_of in Hside.
    destruct (resolve (key r)) as [attr t]. cbn [snd] in Hside.
    by rewrite Ho, Hside.
Qed.

(** A null is kept where the transformer tests for it: a record whose key is
    one of those transformed behind [if data is None: return None], with
    each side absent or null, never raises and sets the resolved name to
    [None] on both bags. *)
Theorem null_value_kept (entry : AuditLogEntry) (r : AuditLogChangePayload)
  (s : AuditLogDiff * AuditLogDiff) :
  mem (key r) null_tolerant = true ->
  old_value r = None \/ old_value r = Some VNone ->
  new_value r = None \/ new_value r = Some VNone ->
  step entry s r
  = OK (<[resolved_name (key r) := VNone]> (fst s),
        <[resolved_name (key r) := VNone]> (snd s)).
Proof.
  intros Hk Ho Hn.
  destruct (tolerant_side entry _ Hk) as (Hc & Hres & Hl & Hside).
  rewrite step_generic by done. destruct s as [b a].
  apply generic_plain; [done|].
  exists VNone, VNone. rewrite !locate_other by done.
  split; [by destruct Ho as [->| ->]|].
  split; [by destruct Hn as [->| ->]|]. done.
Qed.

(** ** An entry without changes *)

(** An entry decoded from a payload with no [changes] key, or with an empty
    list, is as its constructor leaves it, and its first access to [changes]
    does not raise: it makes two empty diffs and the [AuditLogChanges]
    object that holds them. *)
Theorem entry_without_changes (users : gmap Z entity)
  (data : AuditLogEntryPayload) (g : Guild) (e : AuditLogEntry)
  (h : list object) :
  _from_data users data g = OK e ->
  p_changes data = None \/ p_changes data = Some [] ->
  fresh e /\
  changes (e, h)
  = (OK (S (S (length h))),
     (with_changes e (S (S (length h))),
      (h ++ [ODiff ∅; ODiff ∅; OChanges (length h) (S (length h))])%list))
  /\ AuditLogDiff_len (∅ : AuditLogDiff) = 0%nat.
Proof.
  intros Hf Hp. unfold _from_data in Hf.
  bind_inv Hf. bind_inv Hf. bind_inv Hf. bind_inv Hf. injection Hf as <-.
  split; [repeat split|]. split; [|done].
  apply (changes_first _ h []); [done| |done].
  simpl. by destruct Hp as [->| ->].
Qed.

(** ** Names that are not stored *)

(** The three names [setattr] does not store in the attribute dictionary: a
    record keyed [__class__] or [__weakref__] makes the decoder raise,
    whatever else the list holds; with a record keyed [__dict__] the decoder
    returns only if the record carries a dictionary on both sides, and
    processing such a record replaces both bags by these dictionaries,
    whatever they held. *)
Theorem reserved_keys (entry : AuditLogEntry)
  (data : list AuditLogChangePayload) (r : AuditLogChangePayload) :
  r ∈ data -> reserved (key r) = true ->
  (key r <> "__dict__" -> ~ returns (AuditLogChanges_init entry data)) /\
  (key r = "__dict__" ->
   (returns (AuditLogChanges_init entry data) ->
    exists db da,
      old_value r = Some (VDict db) /\ new_value r = Some (VDict da)) /\
   (forall db da s,
      old_value r = Some (VDict db) -> new_value r = Some (VDict da) ->
      step entry s r = OK (list_to_map db, list_to_map da))).
Proof.
  intros Hr Hres.
  assert (composite (key r) = false) as Hc.
  { unfold reserved in Hres. apply mem_elem_of in Hres.
    repeat (apply elem_of_cons in Hres as [->|Hres]; [done|]).
    by apply elem_of_nil in Hres. }
  split.
  - intros Hk Hd.
    destruct (init_returns_each _ _ Hd r Hr) as [[b a] Hs].
    rewrite step_generic in Hs by done.
    apply generic_OK in Hs as (vb & va & _ & _ & Hb & _).
    apply setattr_OK in Hb as [[Hn _]|[Hn _]].
    + by apply resolved_name_dict in Hn.
    + rewrite reserved_resolved in Hn. congruence.
  - intros Hk. split.
    + intros Hd.
      destruct (init_returns_each _ _ Hd r Hr) as [[b a] Hs].
      rewrite step_generic in Hs by done.
      apply (generic_dict _ _ _ _ _ _ Hk) in Hs
        as (db & da & Ho & Hn & _). eauto.
    + intros db da s Ho Hn. rewrite step_generic by done.
      apply generic_dict; [done|]. by exists db, da.
Qed.

End Properties.

(** C2, a counterexample to the claim as stated: two records with the same
    key, in the two possible orders; the later one wins. *)
Lemma decode_order_dependent :
  let x := change "name" None (Some (VStr "a")) in
  let y := change "name" None (Some (VStr "b")) in
  [x; y] ≡ₚ [y; x] /\
  AuditLogChanges_init (sample_entry 1) [x; y]
  <> AuditLogChanges_init (sample_entry 1) [y; x].
Proof.
  split; [apply perm_swap|].
  intros Heq.
  apply (f_equal (fun r => match r with
                           | OK (_, a) => a !! "name"
                           | Raise _ => None
                           end)) in Heq.
  vm_compute in Heq. discriminate.
Qed.

Lemma decode_order_independent_witness :
  let x := change "name" None (Some (VStr "a")) in
  let y := change "topic" (Some (VStr "t")) None in
  AuditLogChanges_init (sample_entry 1) [x; y]
  = AuditLogChanges_init (sample_entry 1) [y; x].
Proof.
  apply decode_order_independent.
  - apply perm_swap.
  - intros r s Hr Hs.
    apply elem_of_cons in Hr as [->|Hr]; apply elem_of_cons in Hs as [->|Hs];
      try (apply list_elem_of_singleton in Hr as ->);
      try (apply list_elem_of_singleton in Hs as ->);
      simpl; intros; done.
Defined.

(** C1, a counterexample to the claim as stated: a record for [name] that
    omits [old_value] leaves [name] set, to [None], in the before bag. *)
Lemma omitted_old_value_not_unset :
  ~ (forall b a,
       AuditLogChanges_init (sample_entry 1)
         [change "name" None (Some (VStr "x"))] = OK (b, a) ->
       b !! resolved_name "name" = None).
Proof.
  intros Hc.
  assert (match AuditLogChanges_init (sample_entry 1)
                  [change "name" None (Some (VStr "x"))] with
          | OK (b, _) => b !! "name"
          | Raise _ => None
          end = Some VNone) as Hv by (vm_compute; reflexivity).
  destruct (AuditLogChanges_init _ _) as [[b a]|]; [|discriminate].
  specialize (Hc b a eq_refl).
  change (resolved_name "name") with "name" in Hc.
  rewrite Hc in Hv. discriminate.
Qed.

Lemma omitted_side_is_set_witness :
  let r := change "name" None (Some (VStr "x")) in
  let b : AuditLogDiff := {[ "topic" := VStr "t"; "name" := VNone ]} in
  let a : AuditLogDiff := {[ "name" := VStr "x" ]} in
  let n := resolved_name (key r) in
  is_Some (b !! n) /\ is_Some (a !! n) /\
  forall s s', step (sample_entry 1) s r = OK s' ->
    (old_value r = None -> fst s' !! n = Some (locate n (fst s) VNone)) /\
    (new_value r = None -> snd s' !! n = Some (locate n (snd s) VNone)).
Proof.
  intros r b a.
  pose (d := change "__dict__" (Some (VDict [("topic", VStr "t")]))
               (Some (VDict []))).
  apply (omitted_side_is_set (sample_entry 1) [r; d] b a r).
  - vm_compute. reflexivity.
  - apply list_elem_of_here.
  - reflexivity.
  - intros r' _ _. reflexivity.
Defined.

(** C3, a counterexample to the claim as stated: after a [channel_id]
    record both bags carry a [channel] and neither carries a
    [location_type]; the [location] record is then stored as it is on both
    sides, where the claim has the channel wrapped, whichever of the two bags
    it is read to consult. *)
Lemma location_not_as_specified :
  let before_bag : AuditLogDiff :=
    {[ "channel" := VEntity (Entity KChannel 5) ]} in
  let after_bag : AuditLogDiff := {[ "channel" := VObject 6 None ]} in
  let r := change "location" (Some (VStr "a")) (Some (VStr "b")) in
  loop (sample_entry 101) (∅, ∅)
    [change "channel_id" (Some (VStr "5")) (Some (VStr "6"))]
  = OK (before_bag, after_bag) /\
  exists b' a',
    step (sample_entry 101) (before_bag, after_bag) r = OK (b', a') /\
    b' !! "location" <> Some (location_as_specified after_bag (VStr "a")) /\
    b' !! "location" <> Some (location_as_specified before_bag (VStr "a")) /\
    a' !! "location" <> Some (location_as_specified before_bag (VStr "b")) /\
    a' !! "location" <> Some (location_as_specified after_bag (VStr "b")).
Proof.
  intros before_bag after_bag r. split; [vm_compute; reflexivity|].
  exists (<["location" := VStr "a"]> before_bag),
         (<["location" := VStr "b"]> after_bag).
  split; [vm_compute; reflexivity|].
  repeat split; vm_compute; discriminate.
Qed.

Lemma location_special_case_witness :
  let b : AuditLogDiff :=
    {[ "location_type" := VEnum ScheduledEventLocationType "external" ]} in
  let r := change "location" (Some (VStr "x")) None in
  exists b' a',
    step (sample_entry 101) (b, ∅) r = OK (b', a') /\
    b' !! "location" = Some (VLocation (VStr "x")) /\
    a' !! "location" = Some VNone.
Proof.
  intros b r.
  destruct (location_special_case (sample_entry 101) b ∅ r eq_refl)
    as (b' & a' & Hs & Hb & Ha).
  exists b', a'. split; [exact Hs|]. split.
  - destruct Hb as [Hb _].
    apply (Hb (VEnum ScheduledEventLocationType "external")); reflexivity.
  - destruct Ha as (_ & _ & _ & Ha). apply Ha. reflexivity.
Defined.

(** C4, a counterexample to the claim as stated: id 99 is in neither the
    member cache nor the user table, and the member transform gives [None],
    not an opaque reference. *)
Lemma member_miss_is_none :
  get_member (guild (sample_entry 1)) 99 = None /\
  _users (sample_entry 1) !! 99 = None /\
  _transform_member_id (sample_entry 1) (VStr "99") = OK VNone /\
  ~ (exists n, _transform_member_id (sample_entry 1) (VStr "99")
               = OK (VObject 99 n)).
Proof.
  repeat split; try (vm_compute; reflexivity).
  intros [n Hn]. vm_compute in Hn. discriminate.
Qed.

Lemma lookup_miss_degrades_witness :
  _transform_channel (sample_entry 1) (VStr "99") = OK (VObject 99 None) /\
  role_of (sample_entry 1) (VDict [("id", VStr "99"); ("name", VStr "R")])
  = OK (VObject 99 (Some (VStr "R"))) /\
  role_of (sample_entry 1) (VDict [("id", VStr "99")]) = Raise KeyError /\
  _transform_member_id (sample_entry 1) (VStr "8")
  = OK (VEntity (Entity KUser 8)).
Proof.
  destruct (lookup_miss_degrades (sample_entry 1) (VStr "99") 99 eq_refl)
    as (Hc & _ & _ & Hr & Hk & _).
  destruct (lookup_miss_degrades (sample_entry 1) (VStr "8") 8 eq_refl)
    as (_ & _ & _ & _ & _ & _ & _ & Hm & _).
  split; [apply Hc; reflexivity|].
  split; [apply Hr; reflexivity|].
  split; [apply Hk; reflexivity|].
  apply Hm. reflexivity.
Defined.

(** C5, a counterexample to the claim as stated: a record for a raw field
    called [roles] is processed after the [$add] record and stored over the
    handler's lists on both bags; and a record keyed [__dict__] replaces the
    bags, leaving [roles] on neither. *)
Lemma roles_overwritten :
  let stub := VDict [("id", VStr "1"); ("name", VStr "A")] in
  let add := change "$add" None (Some (VList [stub])) in
  let data := [add; change "roles" (Some (VStr "x")) (Some (VStr "y"))] in
  let data' := [add; change "__dict__" (Some (VDict [])) (Some (VDict []))] in
  (exists b a,
     AuditLogChanges_init (sample_entry 25) data = OK (b, a) /\
     last_with_key "$add" data = Some add /\
     last_with_key "$remove" data = None /\
     getattr a "roles" <> resolved_roles (sample_entry 25) (Some add) /\
     getattr b "roles" <> resolved_roles (sample_entry 25) None) /\
  (exists b a,
     AuditLogChanges_init (sample_entry 25) data' = OK (b, a) /\
     last_with_key "$add" data' = Some add /\
     a !! "roles" = None /\ b !! "roles" = None).
Proof.
  intros stub add data data'. split.
  - exists {[ "roles" := VStr "x" ]}, {[ "roles" := VStr "y" ]}.
    split; [vm_compute; reflexivity|].
    split; [vm_compute; reflexivity|].
    split; [vm_compute; reflexivity|].
    split; vm_compute; discriminate.
  - exists ∅, ∅.
    split; [vm_compute; reflexivity|].
    split; [vm_compute; reflexivity|].
    split; reflexivity.
Qed.

Lemma role_lists_witness :
  let stub i n := VDict [("id", VStr i); ("name", VStr n)] in
  let data := [change "$remove" None (Some (VList [stub "2" "B"]));
               change "$add" None (Some (VList [stub "1" "A"]))] in
  let b : AuditLogDiff := {[ "roles" := VList [VObject 2 (Some (VStr "B"))] ]} in
  let a : AuditLogDiff := {[ "roles" := VList [VEntity (Entity KRole 1)] ]} in
  is_Some (a !! "roles") /\ is_Some (b !! "roles") /\
  getattr a "roles"
  = resolved_roles (sample_entry 25) (last_with_key "$add" data) /\
  getattr b "roles"
  = resolved_roles (sample_entry 25) (last_with_key "$remove" data).
Proof.
  intros stub data b a.
  assert (AuditLogChanges_init (sample_entry 25) data = OK (b, a)) as Hd
    by (vm_compute; reflexivity).
  assert (is_Some (last_with_key "$add" data)
          \/ is_Some (last_with_key "$remove" data)) as Hs.
  { left. exists (change "$add" None (Some (VList [stub "1" "A"]))).
    vm_compute. reflexivity. }
  assert (forall r, r ∈ data -> key r <> "__dict__") as Hnd.
  { intros r Hin.
    apply elem_of_cons in Hin as [->|Hin];
      [|apply list_elem_of_singleton in Hin as ->]; discriminate. }
  destruct (role_lists (sample_entry 25) data b a Hd Hs Hnd)
    as (Ha & Hb & Hr).
  split; [exact Ha|]. split; [exact Hb|].
  apply Hr. intros r Hin.
  apply elem_of_cons in Hin as [->|Hin];
    [|apply list_elem_of_singleton in Hin as ->]; discriminate.
Defined.

Example role_lists_add_only :
  let stub i n := VDict [("id", VStr i); ("name", VStr n)] in
  AuditLogChanges_init (sample_entry 25)
    [change "$add" None (Some (VList [stub "1" "A"; stub "2" "B"]))]
  = OK ({[ "roles" := VList [] ]},
        {[ "roles" := VList [VEntity (Entity KRole 1);
                             VObject 2 (Some (VStr "B"))] ]}).
Proof. vm_compute. reflexivity. Qed.


Example sample_entry_with_decoded :
  _from_data sample_users (sample_payload 42 None invite_changes) sample_guild
  = OK (sample_entry_with 42 invite_changes).
Proof. reflexivity. Qed.

Lemma invite_target_witness :
  fst (target (sample_entry_with 42 invite_changes, []))
  = OK (VInvite [("max_age", VInt 0); ("max_uses", VInt 3);
                 ("code", VStr "abc"); ("temporary", VBool false);
                 ("uses", VInt 1)]
                (VEntity (Entity KChannel 5))
                (Some (VEntity (Entity KMember 7)))).
Proof.
  pose (b := ({[ "code" := VStr "abc"; "max_age" := VInt 0;
                 "max_uses" := VInt 3; "temporary" := VBool false;
                 "uses" := VInt 1;
                 "channel" := VEntity (Entity KChannel 5);
                 "inviter" := VEntity (Entity KMember 7) ]} : AuditLogDiff)).
  pose (a := ({[ "code" := VNone; "max_age" := VNone; "max_uses" := VNone;
                 "temporary" := VNone; "uses" := VNone; "channel" := VNone;
                 "inviter" := VNone ]} : AuditLogDiff)).
  assert (fresh (sample_entry_with 42 invite_changes)) as Hf
    by (repeat split).
  assert (AuditLogChanges_init (sample_entry_with 42 invite_changes)
            invite_changes = OK (b, a)) as Hd by (vm_compute; reflexivity).
  destruct (invite_target (sample_entry_with 42 invite_changes) []
              invite_changes b a Hf eq_refl eq_refl Hd) as [_ Ht].
  apply Ht; reflexivity.
Defined.

Lemma changes_memoised_witness :
  let w := (sample_entry_with 1 [change "name" None (Some (VStr "x"))], []) in
  let w' := snd (changes w) in
  _changes (fst w') = None /\
  forall xs,
    changes (reads xs w') = (OK 2%nat, reads xs w') /\
    _changes (fst (reads xs w')) = None /\
    snd (reads xs w') = snd w'.
Proof.
  intros w w'.
  assert (changes w = (OK 2%nat, w')) as Hc by (vm_compute; reflexivity).
  destruct (changes_memoised w 2 w' eq_refl Hc) as (_ & Hraw & Hxs).
  split; [exact Hraw|exact Hxs].
Defined.

Lemma before_after_are_the_changes_fields_witness :
  let w := reads [After; Target]
             (sample_entry_with 42 invite_changes, []) in
  (forall c wc, changes w = (OK c, wc) ->
     exists b a,
       snd wc !! c = Some (OChanges b a) /\
       fst (before w) = OK b /\ fst (after w) = OK a) /\
  (forall b, fst (before w) = OK b -> exists c, fst (changes w) = OK c) /\
  (forall a, fst (after w) = OK a -> exists c, fst (changes w) = OK c).
Proof.
  apply (before_after_are_the_changes_fields
           (sample_entry_with 42 invite_changes) [] [After; Target]).
  repeat split.
Defined.

Example accessors_agree :
  let w := reads [After; Target]
             (sample_entry_with 42 invite_changes, []) in
  fst (changes w) = OK 2%nat /\ snd w !! 2%nat = Some (OChanges 0 1) /\
  fst (before w) = OK 0%nat /\ fst (after w) = OK 1%nat.
Proof. vm_compute. repeat split. Qed.

Lemma overwrite_extra_left_raw_witness :
  let d := [("id", VStr "5"); ("type", VInt 0)] in
  exists e,
    _from_data sample_users (sample_payload 13 (Some (VDict d)) [])
      sample_guild = OK e /\
    extra e = VDict d.
Proof.
  intros d.
  apply (overwrite_extra_left_raw sample_users
           (sample_payload 13 (Some (VDict d)) []) sample_guild d
           (VStr "5") 5); try reflexivity.
  - by exists 1000.
  - by exists (VInt 7).
  - by exists VNone.
Defined.

(** ** Instances of the further properties *)

Lemma decoded_keys_agree_witness :
  let data := [change "name" None (Some (VStr "x"));
               change "color" (Some (VInt 1)) None] in
  let b : AuditLogDiff :=
    {[ "name" := VNone; "colour" := VColour (VInt 1);
       "color" := VColour (VInt 1) ]} in
  let a : AuditLogDiff :=
    {[ "name" := VStr "x"; "colour" := VNone; "color" := VNone ]} in
  dom b = dom a /\ AuditLogDiff_len b = AuditLogDiff_len a.
Proof.
  intros data b a.
  apply (decoded_keys_agree (sample_entry 1) data b a).
  - intros r Hr.
    apply elem_of_cons in Hr as [->|Hr];
      [|apply list_elem_of_singleton in Hr as ->]; discriminate.
  - vm_compute. reflexivity.
Defined.

Lemma decoder_returns_iff_witness :
  returns (AuditLogChanges_init (sample_entry 1)
             [change "name" None (Some (VStr "x"));
              change "id" (Some (VStr "5")) None]).
Proof.
  apply (decoder_returns_iff (sample_entry 1)
           [change "name" None (Some (VStr "x"));
            change "id" (Some (VStr "5")) None]).
  - intros r Hr.
    apply elem_of_cons in Hr as [->|Hr];
      [|apply list_elem_of_singleton in Hr as ->]; discriminate.
  - intros r Hr.
    apply elem_of_cons in Hr as [->|Hr];
      [|apply list_elem_of_singleton in Hr as ->];
      eexists; vm_compute; reflexivity.
Defined.

Lemma composite_needs_new_value_witness :
  is_Some (new_value (change "$add" None (Some (VList [])))).
Proof.
  apply (composite_needs_new_value (sample_entry 25)
           [change "$add" None (Some (VList []))]).
  - eexists. vm_compute. reflexivity.
  - apply list_elem_of_here.
  - reflexivity.
Defined.

Lemma aliases_mirror_witness :
  let data := [change "color" (Some (VInt 1)) (Some (VInt 2))] in
  let b : AuditLogDiff :=
    {[ "colour" := VColour (VInt 1); "color" := VColour (VInt 1) ]} in
  let a : AuditLogDiff :=
    {[ "colour" := VColour (VInt 2); "color" := VColour (VInt 2) ]} in
  b !! "color" = b !! "colour" /\ a !! "color" = a !! "colour" /\
  (is_Some (a !! "expire_behavior") ->
   b !! "expire_behaviour" = b !! "expire_behavior" /\
   a !! "expire_behaviour" = a !! "expire_behavior").
Proof.
  intros data b a.
  apply (aliases_mirror (sample_entry 1) data b a).
  - intros r Hr. apply list_elem_of_singleton in Hr as ->. discriminate.
  - vm_compute. reflexivity.
Defined.

Lemma unlisted_field_copied_witness :
  let r := change "name" None (Some (VStr "x")) in
  let data := [change "topic" (Some (VStr "a")) (Some (VStr "b")); r;
               change "__dict__" (Some (VDict [])) (Some (VDict []))] in
  exists b a,
    AuditLogChanges_init (sample_entry 1) data = OK (b, a) /\
    b !! "name" = Some VNone /\ a !! "name" = Some (VStr "x").
Proof.
  intros r data.
  assert (exists b a, AuditLogChanges_init (sample_entry 1) data = OK (b, a))
    as (b & a & Hd) by (eexists _, _; vm_compute; reflexivity).
  assert (r ∈ data) as Hr by (right; left).
  destruct (unlisted_field_copied (sample_entry 1) data b a r Hd Hr
              eq_refl eq_refl eq_refl eq_refl) as [_ Hf].
  exists b, a. split; [exact Hd|]. apply Hf.
  - intros r' Hr' Hw.
    apply elem_of_cons in Hr' as [->|Hr'];
      [vm_compute in Hw; discriminate Hw|].
    apply elem_of_cons in Hr' as [->|Hr']; [done|].
    apply list_elem_of_singleton in Hr' as ->.
    vm_compute in Hw. discriminate Hw.
  - intros r' _ _. reflexivity.
Defined.

Lemma member_prune_extra_witness :
  let d := [("delete_member_days", VStr "7"); ("members_removed", VStr "3")] in
  exists e elems,
    _from_data sample_users (sample_payload 21 (Some (VDict d)) [])
      sample_guild = OK e /\
    extra e = VProxy elems /\
    Forall2 (fun kv kv' => fst kv' = fst kv /\
                           exists z, int (snd kv) = OK z /\ snd kv' = VInt z)
            d elems.
Proof.
  intros d.
  assert (exists e, _from_data sample_users
                      (sample_payload 21 (Some (VDict d)) []) sample_guild
                    = OK e) as [e He] by (eexists; reflexivity).
  destruct (member_prune_extra sample_users
              (sample_payload 21 (Some (VDict d)) []) sample_guild e d
              He eq_refl eq_refl) as (elems & Hx & Hall); [done|].
  exists e, elems. split; [exact He|]. split; [exact Hx|exact Hall].
Defined.

Lemma extra_channel_resolved_witness :
  let raw := VDict [("channel_id", VStr "5"); ("count", VStr "2")] in
  exists e elems,
    @_from_data more_enums sample_users (sample_payload 26 (Some raw) [])
      sample_guild = OK e /\
    extra e = VProxy elems /\
    assoc "channel" elems = Some (VEntity (Entity KChannel 5)).
Proof.
  intros raw.
  assert (exists e, @_from_data more_enums sample_users
                      (sample_payload 26 (Some raw) []) sample_guild
                    = OK e) as [e He] by (eexists; reflexivity).
  destruct (@extra_channel_resolved more_enums sample_users
              (sample_payload 26 (Some raw) []) sample_guild e raw
              He eq_refl eq_refl eq_refl eq_refl)
    as (elems & c & z & Hx & Hc & Hz & Hch).
  exists e, elems. split; [exact He|]. split; [exact Hx|].
  injection Hc as <-. injection Hz as <-. exact Hch.
Defined.

Lemma extra_left_raw_witness :
  let raw := VDict [("x", VInt 1)] in
  exists e,
    _from_data sample_users (sample_payload 999 (Some raw) []) sample_guild
    = OK e /\
    extra e = raw.
Proof.
  intros raw. eexists. split; [reflexivity|].
  apply (extra_left_raw sample_users (sample_payload 999 (Some raw) [])
           sample_guild); [reflexivity|]. left. reflexivity.
Defined.

Lemma overwrite_extra_resolved_witness :
  let d := [("id", VStr "2"); ("type", VStr "0"); ("role_name", VStr "R")] in
  exists e,
    _from_data sample_users (sample_payload 13 (Some (VDict d)) [])
      sample_guild = OK e /\
    extra e = match get_role sample_guild 2 with
              | Some role => VEntity role
              | None => VObject 2 (Some (VStr "R"))
              end.
Proof.
  intros d.
  assert (exists e, _from_data sample_users
                      (sample_payload 13 (Some (VDict d)) []) sample_guild
                    = OK e) as [e He] by (eexists; reflexivity).
  destruct (overwrite_extra_resolved sample_users
              (sample_payload 13 (Some (VDict d)) []) sample_guild e d
              (VStr "2") 2 He eq_refl eq_refl eq_refl eq_refl eq_refl
              eq_refl) as [_ Hrole].
  exists e. split; [exact He|]. apply Hrole. reflexivity.
Defined.

Lemma decoded_at_most_once_witness :
  let w := reads [Target; Before; Changes]
             (sample_entry_with 42 invite_changes, []) in
  (snd w = [] \/
   exists b a,
     AuditLogChanges_init (sample_entry_with 42 invite_changes)
       invite_changes = OK (b, a) /\
     snd w = [ODiff b; ODiff a; OChanges 0 1]) /\
  forall b a,
    AuditLogChanges_init (sample_entry_with 42 invite_changes)
      invite_changes = OK (b, a) ->
    fst (changes w) = OK 2%nat /\
    snd (snd (changes w)) = [ODiff b; ODiff a; OChanges 0 1].
Proof.
  apply (decoded_at_most_once (sample_entry_with 42 invite_changes)
           invite_changes [] [Target; Before; Changes]).
  - repeat split.
  - reflexivity.
Defined.

Lemma failure_not_cached_witness :
  let data := [change "id" (Some (VStr "abc")) None] in
  let w := reads [Before; Target; Changes] (sample_entry_with 1 data, []) in
  fst (changes w) = Raise ValueError /\ fst (before w) = Raise ValueError /\
  fst (after w) = Raise ValueError /\
  _changes (fst w) = Some data /\ snd w = [].
Proof.
  intros data.
  apply (failure_not_cached (sample_entry_with 1 data) data []
           [Before; Target; Changes] ValueError).
  - repeat split.
  - reflexivity.
  - vm_compute. reflexivity.
Defined.

Lemma invite_target_needs_fields_witness :
  let data := [change "code" None (Some (VStr "abc"))] in
  fst (target (sample_entry_with 40 data, [])) = Raise AttributeError /\
  target_slot (fst (snd (target (sample_entry_with 40 data, [])))) = None /\
  changes_slot (fst (snd (target (sample_entry_with 40 data, []))))
  = Some 2%nat.
Proof.
  intros data.
  assert (fresh (sample_entry_with 40 data)) as Hf by (repeat split).
  assert (exists b a, AuditLogChanges_init (sample_entry_with 40 data) data
                      = OK (b, a) /\ a !! "max_age" = None)
    as (b & a & Hd & Hnone).
  { eexists _, _. split; vm_compute; reflexivity. }
  destruct (invite_target_needs_fields (sample_entry_with 40 data) [] data
              b a Hf eq_refl eq_refl Hd) as [_ Hraise].
  apply Hraise. intros Hall.
  apply Forall_cons in Hall as [[v Hv] _].
  change (a !! "max_age" = Some v) in Hv. congruence.
Defined.

Lemma external_location_wrapped_witness :
  let rt := change "entity_type" (Some (VInt 2)) (Some (VInt 3)) in
  let rl := change "location" (Some (VStr "old")) (Some (VStr "place")) in
  exists b a,
    AuditLogChanges_init (sample_entry 101) [rl; rt] = OK (b, a) /\
    a !! "location" = Some (VLocation (VStr "place")).
Proof.
  intros rt rl.
  assert (exists b a, AuditLogChanges_init (sample_entry 101) [rl; rt]
                      = OK (b, a))
    as (b & a & Hd) by (eexists _, _; vm_compute; reflexivity).
  assert (rt ∈ [rl; rt]) as Hrt by (right; left).
  assert (rl ∈ [rl; rt]) as Hrl by left.
  destruct (external_location_wrapped (sample_entry 101) [rl; rt] b a rt rl
              Hd Hrt eq_refl Hrl eq_refl) as [_ Ha].
  - intros r' Hr' Hw. apply elem_of_cons in Hr' as [->|Hr'].
    + vm_compute in Hw. discriminate Hw.
    + by apply list_elem_of_singleton in Hr'.
  - intros r' Hr' Hw. apply elem_of_cons in Hr' as [->|Hr']; [done|].
    apply list_elem_of_singleton in Hr' as ->.
    vm_compute in Hw. discriminate Hw.
  - exists b, a. split; [exact Hd|].
    apply (Ha (VInt 3)); reflexivity.
Defined.

Lemma metadata_lists_witness :
  let r := change "$add_keyword_filter" None (Some (VList [VStr "bad"])) in
  exists b a,
    AuditLogChanges_init (sample_entry 1)
      [change "name" None (Some (VStr "x")); r] = OK (b, a) /\
    a !! "trigger_metadata"
    = Some (VTriggerMetadata
              (VDict [("keyword_filter", VList [VStr "bad"])])) /\
    b !! "trigger_metadata" = Some VNone.
Proof.
  intros r.
  assert (exists b a, AuditLogChanges_init (sample_entry 1)
                        [change "name" None (Some (VStr "x")); r] = OK (b, a))
    as (b & a & Hd) by (eexists _, _; vm_compute; reflexivity).
  assert (r ∈ [change "name" None (Some (VStr "x")); r]) as Hr
    by (right; left).
  destruct (metadata_lists (sample_entry 1)
              [change "name" None (Some (VStr "x")); r] b a r
              (VList [VStr "bad"]) Hd Hr eq_refl) as [Hadd _].
  - intros r' Hr' Hw. apply elem_of_cons in Hr' as [->|Hr'].
    + vm_compute in Hw. discriminate Hw.
    + by apply list_elem_of_singleton in Hr'.
  - intros r' Hr'.
    apply elem_of_cons in Hr' as [->|Hr'];
      [|apply list_elem_of_singleton in Hr' as ->]; discriminate.
  - destruct (Hadd eq_refl) as (Ha & Hb & _).
    exists b, a. split; [exact Hd|]. split; [exact Ha|exact Hb].
Defined.

Lemma target_resolved_witness :
  target (sample_entry_at 13 5, [])
  = (OK (VEntity (Entity KChannel 5)),
     (with_target (sample_entry_at 13 5) (VEntity (Entity KChannel 5)), []))
  /\
  fst (target (sample_entry_at 13 6, [])) = OK (VObject 6 None).
Proof.
  split.
  - apply (target_resolved (sample_entry_at 13 5) [] 5 "channel");
      try reflexivity. left.
  - rewrite (target_resolved (sample_entry_at 13 6) [] 6 "channel");
      try reflexivity. left.
Defined.

Lemma target_fallback_witness :
  fst (target (sample_entry_at 999 4, [])) = OK (VObject 4 None) /\
  target (sample_entry 999, []) = (Raise TypeError, (sample_entry 999, [])).
Proof.
  destruct (target_fallback (sample_entry_at 999 4) [] eq_refl eq_refl)
    as [Hz _].
  destruct (target_fallback (sample_entry 999) [] eq_refl eq_refl)
    as [_ Hn].
  split; [by rewrite (Hz 4 eq_refl)|]. apply Hn. reflexivity.
Defined.

Lemma overwrite_targets_not_null_witness :
  let elem := VDict [("allow", VStr "0"); ("deny", VStr "1024");
                     ("type", VInt 0); ("id", VStr "2")] in
  Forall (fun x => exists t p q,
                     x = VTuple t (VOverwrite p q) /\ t <> VNone)
         [VTuple (VObject 2 None) (VOverwrite 0 1024)].
Proof.
  intros elem.
  apply (overwrite_targets_not_null (sample_entry 1) (VList [elem])).
  reflexivity.
Defined.

Lemma null_value_rejected_witness :
  let r := change "id" (Some VNone) (Some (VStr "5")) in
  let data := [change "name" None (Some (VStr "x")); r] in
  ~ returns (AuditLogChanges_init (sample_entry 1) data) /\
  step (sample_entry 1) (∅, ∅) r = Raise TypeError.
Proof.
  intros r data.
  assert (r ∈ data) as Hr by (right; left).
  destruct (null_value_rejected (sample_entry 1) data r Hr eq_refl
              (or_introl eq_refl)) as [Hn Hs].
  split; [exact Hn|]. apply Hs. reflexivity.
Defined.

Lemma null_value_kept_witness :
  step (sample_entry 1) (∅, ∅) (change "owner_id" (Some VNone) None)
  = OK (<["owner" := VNone]> ∅, <["owner" := VNone]> ∅).
Proof.
  apply (null_value_kept (sample_entry 1)
           (change "owner_id" (Some VNone) None) (∅, ∅)).
  - reflexivity.
  - right. reflexivity.
  - left. reflexivity.
Defined.

Lemma entry_without_changes_witness :
  exists e,
    _from_data sample_users (sample_payload 1 None []) sample_guild = OK e /\
    fresh e /\
    changes (e, [])
    = (OK 2%nat, (with_changes e 2, [ODiff ∅; ODiff ∅; OChanges 0 1])).
Proof.
  assert (exists e, _from_data sample_users (sample_payload 1 None [])
                      sample_guild = OK e) as [e He]
    by (eexists; reflexivity).
  destruct (entry_without_changes sample_users (sample_payload 1 None [])
              sample_guild e [] He (or_intror eq_refl)) as (Hf & Hc & _).
  exists e. split; [exact He|]. split; [exact Hf|exact Hc].
Defined.

Lemma reserved_keys_witness :
  let wipe := change "__dict__" (Some (VDict [("x", VInt 1)]))
                (Some (VDict [])) in
  ~ returns (AuditLogChanges_init (sample_entry 1)
               [change "name" None (Some (VStr "x"));
                change "__class__" None None]) /\
  AuditLogChanges_init (sample_entry 1)
    [change "A" (Some (VInt 0)) (Some (VInt 0)); wipe]
  = OK ({[ "x" := VInt 1 ]}, ∅).
Proof.
  intros wipe.
  assert (change "__class__" None None
          ∈ [change "name" None (Some (VStr "x"));
             change "__class__" None None]) as Hr by (right; left).
  destruct (reserved_keys (sample_entry 1) _ _ Hr eq_refl) as [Hc _].
  split; [apply Hc; discriminate|].
  assert (wipe ∈ [change "A" (Some (VInt 0)) (Some (VInt 0)); wipe]) as Hw
    by (right; left).
  destruct (reserved_keys (sample_entry 1) _ _ Hw eq_refl) as [_ Hd].
  destruct (Hd eq_refl) as [_ Hstep].
  unfold AuditLogChanges_init.
  change (sorted [change "A" (Some (VInt 0)) (Some (VInt 0)); wipe])
    with [change "A" (Some (VInt 0)) (Some (VInt 0)); wipe].
  cbn [loop].
  destruct (step (sample_entry 1) (∅, ∅)
              (change "A" (Some (VInt 0)) (Some (VInt 0)))) as [s|x] eqn:Hs;
    [|vm_compute in Hs; discriminate Hs].
  cbn [mbind result_bind].
  rewrite (Hstep [("x", VInt 1)] [] s eq_refl eq_refl).
  vm_compute. reflexivity.
Defined.
